(** * Jacuzzi: temperature agent and ingestion service

    A shallow embedding of the decision logic of the jacuzzi repository:

    - [pkg/client/monitor/temperature.go]: hwmon / thermal-zone scanning and
      the sensor-type heuristic;
    - [cmd/client/client.go]: the per-cycle filter and submission;
    - the [TemperatureService] methods ([SubmitTemperature],
      [GetTemperatureHistory], [GetCurrentTemperatures],
      [GetTemperatureStats]) over a relational store driven through GORM.

    Go strings are byte sequences and are modelled by [string]; [int] and
    [int64] values by [Z]; [time.Time] by [Z] (nanoseconds counted from
    Go's zero time); [float64] temperatures by exact rationals [Q]. *)

From Stdlib Require Import ZArith QArith Qminmax List String Ascii Bool Arith Lia.
From Stdlib Require Import Sorting.Sorted Permutation.
Import ListNotations.

Local Open Scope string_scope.
Local Open Scope list_scope.
Local Open Scope Z_scope.

Set Implicit Arguments.

(* ================================================================== *)
(** * Part I: definitions                                              *)
(* ================================================================== *)

(** ** Results and errors *)

(** gRPC status codes used by the service, plus the local errors of the
    agent ([fmt.Errorf] wrappers keep only their kind here). *)
Inductive Code : Type :=
| InvalidArgument
| Internal.

Inductive result (E A : Type) : Type :=
| Ok (a : A)
| Err (e : E).
Arguments Ok {E A} a.
Arguments Err {E A} e.

Definition is_ok {E A} (r : result E A) : bool :=
  match r with Ok _ => true | Err _ => false end.

(** ** The [strings], [strconv] and [filepath] functions the agent calls

    The model is byte-wise and covers ASCII text, which is what sysfs
    attribute files and directory names contain. *)
Module GoStrings.

Definition is_upper (c : ascii) : bool :=
  let n := nat_of_ascii c in (65 <=? n)%nat && (n <=? 90)%nat.

Definition lower_byte (c : ascii) : ascii :=
  if is_upper c then ascii_of_nat (nat_of_ascii c + 32) else c.

(** [strings.ToLower] *)
Fixpoint ToLower (s : string) : string :=
  match s with
  | EmptyString => EmptyString
  | String c t => String (lower_byte c) (ToLower t)
  end.

(** [strings.HasPrefix s prefix] *)
Fixpoint HasPrefix (s pre : string) {struct pre} : bool :=
  match pre, s with
  | EmptyString, _ => true
  | String _ _, EmptyString => false
  | String p pre', String c s' => Ascii.eqb c p && HasPrefix s' pre'
  end.

(** [strings.Contains s substr] *)
Fixpoint Contains (s substr : string) : bool :=
  HasPrefix s substr ||
  match s with
  | EmptyString => false
  | String _ t => Contains t substr
  end.

(** [unicode.IsSpace] on the ASCII range: tab, newline, vertical tab,
    form feed, carriage return, space. *)
Definition is_space (c : ascii) : bool :=
  let n := nat_of_ascii c in
  ((9 <=? n)%nat && (n <=? 13)%nat) || (n =? 32)%nat.

Fixpoint TrimLeftSpace (s : string) : string :=
  match s with
  | EmptyString => EmptyString
  | String c t => if is_space c then TrimLeftSpace t else s
  end.

(** Drops the trailing white space: a character is kept when something
    that is not white space survives after it. *)
Fixpoint TrimRightSpace (s : string) : string :=
  match s with
  | EmptyString => EmptyString
  | String c t =>
      match TrimRightSpace t with
      | EmptyString => if is_space c then EmptyString else String c EmptyString
      | t' => String c t'
      end
  end.

(** [strings.TrimSpace] *)
Definition TrimSpace (s : string) : string :=
  TrimRightSpace (TrimLeftSpace s).

Fixpoint drop (n : nat) (s : string) : string :=
  match n, s with
  | O, _ => s
  | S _, EmptyString => EmptyString
  | S n', String _ t => drop n' t
  end.

(** [strings.TrimPrefix s prefix] *)
Definition TrimPrefix (s pre : string) : string :=
  if HasPrefix s pre then drop (String.length pre) s else s.

(** [strings.Split s sep] for a one-byte separator (the agent only
    splits on the underscore).  The result is never empty: a string
    without the separator gives the one-element list. *)
Fixpoint Split (s : string) (sep : ascii) : list string :=
  match s with
  | EmptyString => [EmptyString]
  | String c t =>
      if Ascii.eqb c sep then EmptyString :: Split t sep
      else match Split t sep with
           | [] => [String c EmptyString]
           | p :: ps => String c p :: ps
           end
  end.

Definition digit_of (c : ascii) : option Z :=
  let n := nat_of_ascii c in
  if (48 <=? n)%nat && (n <=? 57)%nat then Some (Z.of_nat (n - 48)) else None.

(** The digit loop of [strconv.ParseUint] in base 10: every byte must be
    a decimal digit (an underscore is a syntax error when the base is
    given explicitly). *)
Fixpoint parse_digits (acc : Z) (s : string) : option Z :=
  match s with
  | EmptyString => Some acc
  | String c t =>
      match digit_of c with
      | Some d => parse_digits (10 * acc + d) t
      | None => None
      end
  end.

Definition ParseUint (s : string) : option Z :=
  match s with
  | EmptyString => None
  | _ => parse_digits 0 s
  end.

(** [strconv.ParseInt s 10 64]: an optional sign, then [ParseUint];
    [None] stands for both [ErrSyntax] and [ErrRange]. *)
Definition ParseInt (s : string) : option Z :=
  match s with
  | EmptyString => None
  | String c t =>
      let neg := Ascii.eqb c "-"%char in
      let body := if Ascii.eqb c "+"%char || neg then t else s in
      match ParseUint body with
      | None => None
      | Some un =>
          if neg then (if un <=? 2 ^ 63 then Some (- un) else None)
          else (if un <? 2 ^ 63 then Some un else None)
      end
  end.

(** [filepath.Join dir name] for a clean [dir] and a single element. *)
Definition Join (dir name : string) : string :=
  (dir ++ "/" ++ name)%string.

Fixpoint last_dflt {A} (d : A) (l : list A) : A :=
  match l with
  | [] => d
  | x :: t => last_dflt x t
  end.

Fixpoint TrimRightSlash (s : string) : string :=
  match s with
  | EmptyString => EmptyString
  | String c t =>
      match TrimRightSlash t with
      | EmptyString =>
          if Ascii.eqb c "/"%char then EmptyString else String c EmptyString
      | t' => String c t'
      end
  end.

(** [filepath.Base]: trailing slashes are stripped, then the text after
    the last slash is returned; the empty path gives ["."] and a path
    of slashes only gives ["/"]. *)
Definition Base (path : string) : string :=
  match path with
  | EmptyString => "."
  | _ =>
      match TrimRightSlash path with
      | EmptyString => "/"
      | p => last_dflt EmptyString (Split p "/"%char)
      end
  end.

End GoStrings.

(** ** Wire messages ([jacuzziv1], generated from the protobuf files) *)

(** Instants: nanoseconds counted from Go's zero [time.Time]
    (January 1, year 1, 00:00 UTC). *)
Definition Time : Type := Z.

Definition zeroTime : Time := 0.

(** [time.Unix 0 0]: what [AsTime] returns for a nil timestamp. *)
Definition unixEpoch : Time := 62135596800 * 1000000000.

Module Proto.

(** [jacuzziv1.TemperatureReading]; [Timestamp] is a pointer to a
    [timestamppb.Timestamp] and may be nil. *)
Record TemperatureReading : Type := {
  SensorId : string;
  ClientId : string;
  TemperatureCelsius : Q;
  Timestamp : option Time;
  SensorType : string;
  SensorName : string
}.

(** The [AsTime] method of a timestamp pointer. *)
Definition AsTime (ts : option Time) : Time :=
  match ts with
  | Some t => t
  | None => unixEpoch
  end.

Record SubmitTemperatureRequest : Type := {
  Readings : list TemperatureReading
}.

Record SubmitTemperatureResponse : Type := {
  Success : bool;
  Message : string
}.

Record GetTemperatureHistoryRequest : Type := {
  hist_ClientId : string;
  hist_SensorId : string;
  hist_StartTime : option Time;
  hist_EndTime : option Time;
  hist_Limit : Z
}.

Record GetCurrentTemperaturesRequest : Type := {
  cur_ClientId : string
}.

Record GetTemperatureStatsRequest : Type := {
  stats_ClientId : string;
  stats_SensorId : string;
  stats_StartTime : option Time;
  stats_EndTime : option Time
}.

Record TemperatureStats : Type := {
  MinTemperature : Q;
  MaxTemperature : Q;
  AvgTemperature : Q;
  ReadingCount : Z;
  PeriodStart : option Time;
  PeriodEnd : option Time
}.

End Proto.

(** ** [pkg/client/monitor]: the sensor scanner *)
Module Monitor.
Import GoStrings.

Record TemperatureSensor : Type := {
  ID : string;
  Type' : string;
  Name : string;
  TempMilliC : Z   (* millidegrees Celsius *)
}.

Definition TempCelsius (t : TemperatureSensor) : Q :=
  inject_Z (TempMilliC t) / 1000.

Inductive OsError : Type :=
| ErrBadPattern
| ErrNotExist
| ErrIO.

(** The part of the operating system the scanner talks to:
    [filepath.Glob] and [os.ReadFile], as functions of the pattern and
    of the path. *)
Record FS : Type := {
  Glob : string -> result OsError (list string);
  ReadFile : string -> result OsError string
}.

Record TemperatureMonitor : Type := {
  hwmonPath : string
}.

Definition NewTemperatureMonitor : TemperatureMonitor :=
  {| hwmonPath := "/sys/class/hwmon" |}.

(** The sensor-type decision of [readHwmonDevice] (lines 102-112). *)
Definition classify (label deviceName : string) : string :=
  let lowerLabel := ToLower label in
  let lowerDevice := ToLower deviceName in
  if Contains lowerLabel "cpu" || Contains lowerDevice "coretemp" then "CPU"
  else if Contains lowerLabel "gpu" || Contains lowerDevice "amdgpu"
          || Contains lowerDevice "nvidia" then "GPU"
  else if Contains lowerLabel "nvme" || Contains lowerDevice "nvme" then "DISK"
  else "OTHER".

(** One iteration of the loop over [tempFiles]; returning [sensors]
    unchanged is the loop's [continue]. *)
Definition hwmonChannel (fs : FS) (hwmonDir deviceName : string)
    (sensors : list TemperatureSensor) (tempFile : string)
    : list TemperatureSensor :=
  let base := Base tempFile in
  let parts := Split base "_"%char in
  if (List.length parts <? 2)%nat then sensors
  else
    let sensorNum := TrimPrefix (hd EmptyString parts) "temp" in
    match ReadFile fs tempFile with
    | Err _ => sensors
    | Ok data =>
        match ParseInt (TrimSpace data) with
        | None => sensors
        | Some tempMilliC =>
            let labelFile := Join hwmonDir ("temp" ++ sensorNum ++ "_label")%string in
            let label :=
              match ReadFile fs labelFile with
              | Ok data' => TrimSpace data'
              | Err _ => (deviceName ++ "_temp" ++ sensorNum)%string
              end in
            sensors ++
              [ {| ID := (Base hwmonDir ++ "_" ++ sensorNum)%string;
                   Type' := classify label deviceName;
                   Name := label;
                   TempMilliC := tempMilliC |} ]
        end
    end.

Definition readHwmonDevice (fs : FS) (hwmonDir : string)
    : result OsError (list TemperatureSensor) :=
  let deviceName :=
    match ReadFile fs (Join hwmonDir "name") with
    | Ok data => TrimSpace data
    | Err _ => "Unknown"
    end in
  match Glob fs (Join hwmonDir "temp*_input") with
  | Err e => Err e
  | Ok tempFiles =>
      Ok (fold_left (hwmonChannel fs hwmonDir deviceName) tempFiles [])
  end.

Definition thermalZone (fs : FS) (sensors : list TemperatureSensor)
    (thermalDir : string) : list TemperatureSensor :=
  match ReadFile fs (Join thermalDir "temp") with
  | Err _ => sensors
  | Ok data =>
      match ParseInt (TrimSpace data) with
      | None => sensors
      | Some tempMilliC =>
          let zoneType :=
            match ReadFile fs (Join thermalDir "type") with
            | Ok data' => TrimSpace data'
            | Err _ => "thermal"
            end in
          sensors ++
            [ {| ID := Base thermalDir;
                 Type' := "CPU";
                 Name := zoneType;
                 TempMilliC := tempMilliC |} ]
      end
  end.

Definition readThermalZones (fs : FS)
    : result OsError (list TemperatureSensor) :=
  match Glob fs "/sys/class/thermal/thermal_zone*" with
  | Err e => Err e
  | Ok thermalDirs => Ok (fold_left (thermalZone fs) thermalDirs [])
  end.

(** One iteration of the loop over [hwmonDirs]. *)
Definition hwmonDevice (fs : FS) (sensors : list TemperatureSensor)
    (hwmonDir : string) : list TemperatureSensor :=
  match readHwmonDevice fs hwmonDir with
  | Err _ => sensors
  | Ok deviceSensors => sensors ++ deviceSensors
  end.

Definition GetTemperatures (m : TemperatureMonitor) (fs : FS)
    : result OsError (list TemperatureSensor) :=
  match Glob fs (Join (hwmonPath m) "hwmon*") with
  | Err e => Err e
  | Ok hwmonDirs =>
      let sensors := fold_left (hwmonDevice fs) hwmonDirs [] in
      match readThermalZones fs with
      | Ok thermalSensors => Ok (sensors ++ thermalSensors)
      | Err _ => Ok sensors
      end
  end.

(** *** The rule list of the specification

    The same decision written as the specification words it: an ordered
    list of rules, each a set of [(target, substring)] tests, the first
    rule with a matching test giving the type. *)
Inductive Target : Type := OnLabel | OnDevice.

Definition rules : list (list (Target * string) * string) :=
  [ ([(OnLabel, "cpu"); (OnDevice, "coretemp")], "CPU");
    ([(OnLabel, "gpu"); (OnDevice, "amdgpu"); (OnDevice, "nvidia")], "GPU");
    ([(OnLabel, "nvme"); (OnDevice, "nvme")], "DISK") ].

Definition test_matches (label deviceName : string) (t : Target * string) : bool :=
  match fst t with
  | OnLabel => Contains (ToLower label) (snd t)
  | OnDevice => Contains (ToLower deviceName) (snd t)
  end.

Fixpoint first_match (label deviceName : string)
    (rs : list (list (Target * string) * string)) : string :=
  match rs with
  | [] => "OTHER"
  | (tests, ty) :: rest =>
      if existsb (test_matches label deviceName) tests then ty
      else first_match label deviceName rest
  end.

Definition classify_by_rules (label deviceName : string) : string :=
  first_match label deviceName rules.

(** What a channel file holds, as the specification sees it: its
    integer value when the file is readable and parses. *)
Definition channel_value (fs : FS) (tempFile : string) : option Z :=
  match ReadFile fs tempFile with
  | Ok data => ParseInt (TrimSpace data)
  | Err _ => None
  end.

Definition parseable (fs : FS) (tempFile : string) : bool :=
  match channel_value fs tempFile with Some _ => true | None => false end.

(** The temperature channels of the hwmon devices, in scan order: what
    the pattern [temp*_input] lists under each device. *)
Definition hwmon_channels (fs : FS) (hwmonDirs : list string) : list string :=
  flat_map (fun hwmonDir =>
              match Glob fs (Join hwmonDir "temp*_input") with
              | Ok tempFiles => tempFiles
              | Err _ => []
              end) hwmonDirs.

(** [sub] occurs in [s] when case is ignored ([sub] is in lower case). *)
Definition contains_ci (s sub : string) : Prop :=
  exists a b, ToLower s = (a ++ sub ++ b)%string.

(** A name the pattern [temp*_input] matches. *)
Definition temp_input_name (name : string) : Prop :=
  exists x, name = ("temp" ++ x ++ "_input")%string.

End Monitor.

(** ** [cmd/client]: one polling cycle *)
Module Poller.
Import Monitor.

(** [config.MonitoringConfig] and the part of [config.Config] the cycle
    reads. *)
Record MonitoringConfig : Type := {
  CPU : bool;
  GPU : bool;
  Disk : bool
}.

Record Config : Type := {
  Monitoring : MonitoringConfig
}.

(** The body of the filter loop (lines 140-156): the [switch] on the
    sensor type, then the conditional append. *)
Definition filterStep (cfg : Config)
    (filteredSensors : list TemperatureSensor) (sensor : TemperatureSensor)
    : list TemperatureSensor :=
  let include :=
    if (Type' sensor =? "CPU")%string then CPU (Monitoring cfg)
    else if (Type' sensor =? "GPU")%string then GPU (Monitoring cfg)
    else if (Type' sensor =? "DISK")%string then Disk (Monitoring cfg)
    else true in
  if include then filteredSensors ++ [sensor] else filteredSensors.

Definition filterSensors (cfg : Config) (sensors : list TemperatureSensor)
    : list TemperatureSensor :=
  fold_left (filterStep cfg) sensors [].

Definition toReading (clientID : string) (timestamp : Time)
    (sensor : TemperatureSensor) : Proto.TemperatureReading :=
  {| Proto.SensorId := ID sensor;
     Proto.ClientId := clientID;
     Proto.TemperatureCelsius := TempCelsius sensor;
     Proto.Timestamp := Some timestamp;
     Proto.SensorType := Type' sensor;
     Proto.SensorName := Name sensor |}.

Inductive CycleError : Type :=
| FailedToGetTemperatures (e : OsError)
| FailedToSubmit (c : Code)
| ServerReturnedFailure (msg : string).

(** What a cycle does besides returning: log lines and the RPC. *)
Inductive Event : Type :=
| LogNoSensorsFound
| LogNoSensorsAfterFiltering
| LogSensor (s : TemperatureSensor)
| RpcSubmitTemperature (req : Proto.SubmitTemperatureRequest)
| LogSent (n : nat).

Definition is_submission (e : Event) : bool :=
  match e with RpcSubmitTemperature _ => true | _ => false end.

(** [collectAndSendTemperatures]: [rpc] is the remote
    [SubmitTemperature], [now] the value of [timestamppb.Now] at batch
    assembly.  Returns the cycle's error ([None] for nil) and the events
    in order. *)
Definition collectAndSendTemperatures
    (rpc : Proto.SubmitTemperatureRequest ->
           result Code Proto.SubmitTemperatureResponse)
    (now : Time) (fs : FS) (monitor : TemperatureMonitor)
    (clientID : string) (cfg : Config)
    : option CycleError * list Event :=
  match GetTemperatures monitor fs with
  | Err e => (Some (FailedToGetTemperatures e), [])
  | Ok sensors =>
      match sensors with
      | [] => (None, [LogNoSensorsFound])
      | _ =>
          let filteredSensors := filterSensors cfg sensors in
          match filteredSensors with
          | [] => (None, [LogNoSensorsAfterFiltering])
          | _ =>
              let readings := map (toReading clientID now) filteredSensors in
              let logs := map LogSensor filteredSensors in
              let req := {| Proto.Readings := readings |} in
              match rpc req with
              | Err c =>
                  (Some (FailedToSubmit c), logs ++ [RpcSubmitTemperature req])
              | Ok resp =>
                  if Proto.Success resp then
                    (None, logs ++ [RpcSubmitTemperature req;
                                    LogSent (List.length readings)])
                  else
                    (Some (ServerReturnedFailure (Proto.Message resp)),
                     logs ++ [RpcSubmitTemperature req])
              end
          end
      end
  end.

End Poller.

(** ** [pkg/server/models]: the rows of the store *)
Module Models.

(** [models.TemperatureReading] (the [UpdatedAt] column is never read
    by the service and is left out). *)
Record TemperatureReading : Type := {
  rID : nat;
  rSensorID : string;
  rClientID : string;
  rTemperatureCelsius : Q;
  rSensorType : string;
  rSensorName : string;
  rCreatedAt : Time
}.

(** Modelled from the spec: the [models.Client] declaration that carries
    [FirstSeen] and [IsOnline] is not in the tree ([models/temperature.go]
    holds an earlier one with [LastSeen] only).  The fields are those
    [SubmitTemperature] and [modelToProtoClient] touch, the Host record
    of the specification; [FirstSeen] is a plain [time.Time] column. *)
Record Client : Type := {
  cID : nat;
  cClientID : string;
  cFirstSeen : Time;
  cLastSeen : Time;
  cIsOnline : bool
}.

(** [models.Sensor] *)
Record Sensor : Type := {
  sID : nat;
  sSensorID : string;
  sClientID : string;
  sSensorType : string;
  sSensorName : string
}.

(** The three tables, each in primary-key order. *)
Record Store : Type := {
  clients : list Client;
  sensors : list Sensor;
  temperature_readings : list TemperatureReading
}.

Definition empty_store : Store :=
  {| clients := []; sensors := []; temperature_readings := [] |}.

End Models.

(** ** The database session: GORM over a transactional backend *)
Module Gorm.
Import Models.

(** What the process can observe of the backend: the committed store,
    the number of SQL statements sent so far ([BEGIN], [COMMIT] and
    [ROLLBACK] included) and the number of clock reads so far. *)
Record World : Type := {
  store : Store;
  executed : nat;
  ticks : nat
}.

Definition with_store (w : World) (s : Store) : World :=
  {| store := s; executed := executed w; ticks := ticks w |}.

Inductive DbError : Type := ErrDatabase.

(** *** Query statements

    The conditions, selections and clauses the service builds. *)
Inductive Cond : Type :=
| ClientIdEq (v : string)       (* client_id = ? *)
| SensorIdEq (v : string)       (* sensor_id = ? *)
| CreatedAtGe (t : Time)        (* created_at >= ? *)
| CreatedAtLe (t : Time).       (* created_at <= ? *)

Inductive Selection : Type :=
| SelAll
| SelSensorId                   (* sensor_id *)
| SelSensorMaxCreated           (* sensor_id, MAX(created_at) as max_created_at *)
| SelAggregates.                (* AVG, MIN, MAX of temperature_celsius, COUNT of rows *)

(** INNER JOIN (sub) as latest ON sensor_id = latest.sensor_id AND
    created_at = latest.max_created_at; [sub] is the address of the
    sub-query's statement. *)
Inductive JoinClause : Type :=
| JoinLatest (sub : nat).

(** [gorm.Statement]: the clauses accumulated by the chain methods. *)
Record Statement : Type := {
  Wheres : list Cond;
  Selects : Selection;
  IsDistinct : bool;
  GroupBySensor : bool;
  JoinClauses : list JoinClause;
  OrderCreatedDesc : bool;
  LimitRows : option Z
}.

Definition blank : Statement :=
  {| Wheres := []; Selects := SelAll; IsDistinct := false;
     GroupBySensor := false; JoinClauses := []; OrderCreatedDesc := false;
     LimitRows := None |}.

(** [*gorm.DB]: a handle on a statement.  [clone] is GORM's field of
    that name: [1] on the handle [gorm.Open] returns and on a
    transaction handle (each chain starts from a new statement), [2]
    after [Session] (each chain starts from a copy), [0] on what a chain
    method returns (the chain goes on in the same statement). *)
Record DB : Type := {
  clone : nat;
  stmt : nat
}.

(** The state of one service call: the backend and the statements
    allocated so far. *)
Record GState : Type := {
  world : World;
  heap : list Statement
}.

Definition G (A : Type) : Type := GState -> A * GState.

Definition ret {A} (a : A) : G A := fun g => (a, g).

Definition bind {A B} (m : G A) (k : A -> G B) : G B :=
  fun g => let (a, g') := m g in k a g'.

Declare Scope gorm_scope.
Delimit Scope gorm_scope with gorm.
Notation "x <- m ;; k" := (bind m (fun x => k))
  (at level 61, m at next level, right associativity) : gorm_scope.
Local Open Scope gorm_scope.

Definition alloc (s : Statement) : G DB :=
  fun g => ({| clone := 0; stmt := List.length (heap g) |},
            {| world := world g; heap := heap g ++ [s] |}).

Definition statement_at (h : list Statement) (l : nat) : Statement :=
  nth l h blank.

Fixpoint set_nth (l : nat) (s : Statement) (h : list Statement) : list Statement :=
  match h, l with
  | [], _ => []
  | _ :: t, O => s :: t
  | x :: t, S l' => x :: set_nth l' s t
  end.

(** [db.getInstance]: a handle with [clone > 0] gives a new statement,
    blank or copied; a handle with [clone = 0] gives itself. *)
Definition getInstance (db : DB) : G DB :=
  match clone db with
  | O => ret db
  | S O => alloc blank
  | _ => fun g => alloc (statement_at (heap g) (stmt db)) g
  end.

(** A chain method: take the instance, change its statement in place,
    return the instance. *)
Definition chain (db : DB) (f : Statement -> Statement) : G DB :=
  tx <- getInstance db ;;
  fun g =>
    (tx, {| world := world g;
            heap := set_nth (stmt tx) (f (statement_at (heap g) (stmt tx))) (heap g) |}).

(** [db.Model]: every query of the service is on [temperature_readings],
    so only the instance matters. *)
Definition Model (db : DB) : G DB := chain db (fun s => s).

(** [db.Where]: the condition is merged into the WHERE clause. *)
Definition Where (db : DB) (c : Cond) : G DB :=
  chain db (fun s =>
    {| Wheres := Wheres s ++ [c]; Selects := Selects s;
       IsDistinct := IsDistinct s; GroupBySensor := GroupBySensor s;
       JoinClauses := JoinClauses s; OrderCreatedDesc := OrderCreatedDesc s;
       LimitRows := LimitRows s |}).

(** [db.Select]: replaces the selection. *)
Definition Select (db : DB) (sel : Selection) : G DB :=
  chain db (fun s =>
    {| Wheres := Wheres s; Selects := sel;
       IsDistinct := IsDistinct s; GroupBySensor := GroupBySensor s;
       JoinClauses := JoinClauses s; OrderCreatedDesc := OrderCreatedDesc s;
       LimitRows := LimitRows s |}).

(** [db.Distinct "sensor_id"]: sets the flag and selects the column. *)
Definition Distinct (db : DB) : G DB :=
  chain db (fun s =>
    {| Wheres := Wheres s; Selects := SelSensorId;
       IsDistinct := true; GroupBySensor := GroupBySensor s;
       JoinClauses := JoinClauses s; OrderCreatedDesc := OrderCreatedDesc s;
       LimitRows := LimitRows s |}).

(** [db.Group "sensor_id"] *)
Definition Group (db : DB) : G DB :=
  chain db (fun s =>
    {| Wheres := Wheres s; Selects := Selects s;
       IsDistinct := IsDistinct s; GroupBySensor := true;
       JoinClauses := JoinClauses s; OrderCreatedDesc := OrderCreatedDesc s;
       LimitRows := LimitRows s |}).

(** [db.Joins] with the sub-query as argument. *)
Definition Joins (db : DB) (sub : DB) : G DB :=
  chain db (fun s =>
    {| Wheres := Wheres s; Selects := Selects s;
       IsDistinct := IsDistinct s; GroupBySensor := GroupBySensor s;
       JoinClauses := JoinClauses s ++ [JoinLatest (stmt sub)];
       OrderCreatedDesc := OrderCreatedDesc s;
       LimitRows := LimitRows s |}).

(** [db.Order "created_at DESC"] *)
Definition Order (db : DB) : G DB :=
  chain db (fun s =>
    {| Wheres := Wheres s; Selects := Selects s;
       IsDistinct := IsDistinct s; GroupBySensor := GroupBySensor s;
       JoinClauses := JoinClauses s; OrderCreatedDesc := true;
       LimitRows := LimitRows s |}).

(** [db.Limit] *)
Definition Limit (db : DB) (n : Z) : G DB :=
  chain db (fun s =>
    {| Wheres := Wheres s; Selects := Selects s;
       IsDistinct := IsDistinct s; GroupBySensor := GroupBySensor s;
       JoinClauses := JoinClauses s; OrderCreatedDesc := OrderCreatedDesc s;
       LimitRows := Some n |}).

(** *** What a statement selects *)

Definition holds (c : Cond) (r : TemperatureReading) : bool :=
  match c with
  | ClientIdEq v => (rClientID r =? v)%string
  | SensorIdEq v => (rSensorID r =? v)%string
  | CreatedAtGe t => t <=? rCreatedAt r
  | CreatedAtLe t => rCreatedAt r <=? t
  end.

Definition holds_all (cs : list Cond) (r : TemperatureReading) : bool :=
  forallb (fun c => holds c r) cs.

(** First occurrences, in order. *)
Fixpoint dedup (l : list string) : list string :=
  match l with
  | [] => []
  | x :: t => x :: filter (fun y => negb (y =? x)%string) (dedup t)
  end.

Definition max_time (l : list Time) : Time :=
  match l with
  | [] => zeroTime
  | t :: ts => fold_left Z.max ts t
  end.

(** SELECT sensor_id, MAX(created_at) ... WHERE ... GROUP BY sensor_id *)
Definition latest_per_sensor (cs : list Cond) (rows : list TemperatureReading)
    : list (string * Time) :=
  let matching := filter (holds_all cs) rows in
  map (fun sid =>
         (sid, max_time (map rCreatedAt
                 (filter (fun r => (rSensorID r =? sid)%string) matching))))
      (dedup (map rSensorID matching)).

Definition join_on (r : TemperatureReading) (l : string * Time) : bool :=
  (rSensorID r =? fst l)%string && (rCreatedAt r =? snd l).

(** An inner join keeps a row once for every row of the other side that
    satisfies the ON condition. *)
Definition inner_join (h : list Statement) (all : list TemperatureReading)
    (rows : list TemperatureReading) (j : JoinClause)
    : list TemperatureReading :=
  match j with
  | JoinLatest sub =>
      let latest := latest_per_sensor (Wheres (statement_at h sub)) all in
      flat_map (fun r => map (fun _ => r) (filter (join_on r) latest)) rows
  end.

(** ORDER BY created_at DESC, rows with equal keys in table order. *)
Fixpoint insert_desc (r : TemperatureReading) (l : list TemperatureReading)
    : list TemperatureReading :=
  match l with
  | [] => [r]
  | x :: t =>
      if rCreatedAt r <? rCreatedAt x then x :: insert_desc r t else r :: l
  end.

Definition sort_desc (l : list TemperatureReading) : list TemperatureReading :=
  fold_right insert_desc [] l.

(** FROM temperature_readings, JOIN, WHERE, ORDER BY, LIMIT. *)
Definition select_rows (h : list Statement) (s : Statement)
    (all : list TemperatureReading) : list TemperatureReading :=
  let joined := fold_left (inner_join h all) (JoinClauses s) all in
  let kept := filter (holds_all (Wheres s)) joined in
  let ordered := if OrderCreatedDesc s then sort_desc kept else kept in
  match LimitRows s with
  | Some n => firstn (Z.to_nat n) ordered
  | None => ordered
  end.

(** The row the aggregate query scans into [stats]; over no rows the
    aggregates are NULL and the destination keeps its zero values. *)
Record Aggregates : Type := {
  AvgTemp : Q;
  MinTemp : Q;
  MaxTemp : Q;
  Count : Z
}.

Definition q_sum (l : list Q) : Q := fold_right Qplus 0%Q l.

Definition aggregate (rows : list TemperatureReading) : Aggregates :=
  match map rTemperatureCelsius rows with
  | [] => {| AvgTemp := 0%Q; MinTemp := 0%Q; MaxTemp := 0%Q; Count := 0 |}
  | t :: ts =>
      {| AvgTemp := (q_sum (t :: ts) / inject_Z (Z.of_nat (List.length (t :: ts))))%Q;
         MinTemp := fold_left Qmin ts t;
         MaxTemp := fold_left Qmax ts t;
         Count := Z.of_nat (List.length (t :: ts)) |}
  end.

End Gorm.

(** ** [pkg/server/service]: the temperature service *)
Module Service.
Import Models Gorm.
Local Open Scope gorm_scope.

Section Backend.

(** The wall clock ([clock k] is the value of the k-th read) and the
    faults of the backend ([faulty k] says that the k-th statement
    sent to it fails). *)
Variable clock : nat -> Time.
Variable faulty : nat -> bool.

(** [time.Now] *)
Definition Now (w : World) : Time * World :=
  (clock (ticks w),
   {| store := store w; executed := executed w; ticks := S (ticks w) |}).

(** Sends one statement; the answer says whether it went through. *)
Definition send (w : World) : bool * World :=
  (negb (faulty (executed w)),
   {| store := store w; executed := S (executed w); ticks := ticks w |}).

Definition next_id (ids : list nat) : nat := S (list_max ids).

(** *** Statements of a transaction handle

    A transaction handle has [clone = 1]: each chain
    [tx.Where(...).FirstOrCreate(...)] runs on a statement of its own,
    so these are given directly on the tables. *)

(** [tx.Where("client_id = ?", id).FirstOrCreate(client)]: the first
    row with that [client_id] in primary-key order is loaded into
    [client]; without one, [client] is inserted and receives its key. *)
Definition FirstOrCreateClient (id : string) (client : Client) (w : World)
    : result DbError Client * World :=
  let (ok, w1) := send w in
  if negb ok then (Err ErrDatabase, w1)
  else
    match find (fun c => (cClientID c =? id)%string) (clients (store w1)) with
    | Some found => (Ok found, w1)
    | None =>
        let (ok', w2) := send w1 in
        if negb ok' then (Err ErrDatabase, w2)
        else
          let row :=
            {| cID := next_id (map cID (clients (store w2)));
               cClientID := cClientID client;
               cFirstSeen := cFirstSeen client;
               cLastSeen := cLastSeen client;
               cIsOnline := cIsOnline client |} in
          (Ok row,
           with_store w2
             {| clients := clients (store w2) ++ [row];
                sensors := sensors (store w2);
                temperature_readings := temperature_readings (store w2) |})
    end.

(** [tx.Model(client).Updates({last_seen, is_online})]: UPDATE clients
    SET ... WHERE id = the key of [client]. *)
Definition UpdatesClient (client : Client) (last_seen : Time)
    (is_online : bool) (w : World) : result DbError unit * World :=
  let (ok, w1) := send w in
  if negb ok then (Err ErrDatabase, w1)
  else
    (Ok tt,
     with_store w1
       {| clients :=
            map (fun c =>
                   if (cID c =? cID client)%nat then
                     {| cID := cID c; cClientID := cClientID c;
                        cFirstSeen := cFirstSeen c;
                        cLastSeen := last_seen;
                        cIsOnline := is_online |}
                   else c)
                (clients (store w1));
          sensors := sensors (store w1);
          temperature_readings := temperature_readings (store w1) |}).

(** [tx.Where("sensor_id = ?", id).FirstOrCreate(sensor)] *)
Definition FirstOrCreateSensor (id : string) (sensor : Sensor) (w : World)
    : result DbError Sensor * World :=
  let (ok, w1) := send w in
  if negb ok then (Err ErrDatabase, w1)
  else
    match find (fun s => (sSensorID s =? id)%string) (sensors (store w1)) with
    | Some found => (Ok found, w1)
    | None =>
        let (ok', w2) := send w1 in
        if negb ok' then (Err ErrDatabase, w2)
        else
          let row :=
            {| sID := next_id (map sID (sensors (store w2)));
               sSensorID := sSensorID sensor;
               sClientID := sClientID sensor;
               sSensorType := sSensorType sensor;
               sSensorName := sSensorName sensor |} in
          (Ok row,
           with_store w2
             {| clients := clients (store w2);
                sensors := sensors (store w2) ++ [row];
                temperature_readings := temperature_readings (store w2) |})
    end.

(** [tx.Create(tempReading)]: [CreatedAt] is an auto-create-time
    column, so a zero value is replaced by the current time. *)
Definition CreateReading (r : TemperatureReading) (w : World)
    : result DbError TemperatureReading * World :=
  let (created, w0) :=
    if rCreatedAt r =? zeroTime then Now w else (rCreatedAt r, w) in
  let (ok, w1) := send w0 in
  if negb ok then (Err ErrDatabase, w1)
  else
    let row :=
      {| rID := next_id (map rID (temperature_readings (store w1)));
         rSensorID := rSensorID r;
         rClientID := rClientID r;
         rTemperatureCelsius := rTemperatureCelsius r;
         rSensorType := rSensorType r;
         rSensorName := rSensorName r;
         rCreatedAt := created |} in
    (Ok row,
     with_store w1
       {| clients := clients (store w1);
          sensors := sensors (store w1);
          temperature_readings := temperature_readings (store w1) ++ [row] |}).

(** [db.Transaction fn]: BEGIN, the body, then COMMIT, or ROLLBACK when
    the body returns an error; the store is the one before BEGIN
    unless COMMIT goes through. *)
Definition Transaction (fn : World -> option DbError * World) (w : World)
    : option DbError * World :=
  let (ok, w1) := send w in
  if negb ok then (Some ErrDatabase, w1)
  else
    match fn w1 with
    | (Some e, w2) =>
        let (_, w3) := send w2 in (Some e, with_store w3 (store w))
    | (None, w2) =>
        let (ok', w3) := send w2 in
        if ok' then (None, w3)
        else (Some ErrDatabase, with_store w3 (store w))
    end.

(** *** [SubmitTemperature] *)

(** The body of the loop over [req.Readings]; [Some e] is
    [return err]. *)
Definition submitReading (reading : Proto.TemperatureReading) (w : World)
    : option DbError * World :=
  (* Update or create client *)
  let (now, w) := Now w in
  let client :=
    {| cID := 0%nat; cClientID := Proto.ClientId reading;
       cFirstSeen := zeroTime; cLastSeen := now; cIsOnline := true |} in
  match FirstOrCreateClient (Proto.ClientId reading) client w with
  | (Err e, w) => (Some e, w)
  | (Ok client, w) =>
      (* Update LastSeen and IsOnline for existing clients *)
      let (client, w) :=
        if negb (cID client =? 0)%nat then
          (client, snd (UpdatesClient client now true w))
        else
          (* Set FirstSeen for new clients *)
          ({| cID := cID client; cClientID := cClientID client;
              cFirstSeen := now; cLastSeen := cLastSeen client;
              cIsOnline := cIsOnline client |}, w) in
      (* Update or create sensor *)
      let sensor :=
        {| sID := 0%nat; sSensorID := Proto.SensorId reading;
           sClientID := Proto.ClientId reading;
           sSensorType := Proto.SensorType reading;
           sSensorName := Proto.SensorName reading |} in
      match FirstOrCreateSensor (Proto.SensorId reading) sensor w with
      | (Err e, w) => (Some e, w)
      | (Ok _, w) =>
          (* Insert temperature reading *)
          let tempReading :=
            {| rID := 0%nat; rSensorID := Proto.SensorId reading;
               rClientID := Proto.ClientId reading;
               rTemperatureCelsius := Proto.TemperatureCelsius reading;
               rSensorType := Proto.SensorType reading;
               rSensorName := Proto.SensorName reading;
               rCreatedAt := Proto.AsTime (Proto.Timestamp reading) |} in
          match CreateReading tempReading w with
          | (Err e, w) => (Some e, w)
          | (Ok _, w) => (None, w)
          end
      end
  end.

Fixpoint submitLoop (readings : list Proto.TemperatureReading) (w : World)
    : option DbError * World :=
  match readings with
  | [] => (None, w)
  | reading :: rest =>
      match submitReading reading w with
      | (Some e, w') => (Some e, w')
      | (None, w') => submitLoop rest w'
      end
  end.

Definition SubmitTemperature (req : Proto.SubmitTemperatureRequest) (w : World)
    : result Code Proto.SubmitTemperatureResponse * World :=
  if (List.length (Proto.Readings req) =? 0)%nat then
    (Err InvalidArgument, w)
  else
    match Transaction (submitLoop (Proto.Readings req)) w with
    | (Some _, w') => (Err Internal, w')
    | (None, w') =>
        (Ok {| Proto.Success := true;
               Proto.Message := "Temperature readings saved successfully" |},
         w')
    end.

(** *** The earlier [SubmitTemperature]
    ([pkg/server/service/temperature_service.go]): the client is
    looked up or created and nothing else is done to it. *)
Definition submitReading_v0 (reading : Proto.TemperatureReading) (w : World)
    : option DbError * World :=
  let (now, w) := Now w in
  let client :=
    {| cID := 0%nat; cClientID := Proto.ClientId reading;
       cFirstSeen := zeroTime; cLastSeen := now; cIsOnline := false |} in
  match FirstOrCreateClient (Proto.ClientId reading) client w with
  | (Err e, w) => (Some e, w)
  | (Ok _, w) =>
      let sensor :=
        {| sID := 0%nat; sSensorID := Proto.SensorId reading;
           sClientID := Proto.ClientId reading;
           sSensorType := Proto.SensorType reading;
           sSensorName := Proto.SensorName reading |} in
      match FirstOrCreateSensor (Proto.SensorId reading) sensor w with
      | (Err e, w) => (Some e, w)
      | (Ok _, w) =>
          let tempReading :=
            {| rID := 0%nat; rSensorID := Proto.SensorId reading;
               rClientID := Proto.ClientId reading;
               rTemperatureCelsius := Proto.TemperatureCelsius reading;
               rSensorType := Proto.SensorType reading;
               rSensorName := Proto.SensorName reading;
               rCreatedAt := Proto.AsTime (Proto.Timestamp reading) |} in
          match CreateReading tempReading w with
          | (Err e, w) => (Some e, w)
          | (Ok _, w) => (None, w)
          end
      end
  end.

Fixpoint submitLoop_v0 (readings : list Proto.TemperatureReading) (w : World)
    : option DbError * World :=
  match readings with
  | [] => (None, w)
  | reading :: rest =>
      match submitReading_v0 reading w with
      | (Some e, w') => (Some e, w')
      | (None, w') => submitLoop_v0 rest w'
      end
  end.

Definition SubmitTemperature_v0 (req : Proto.SubmitTemperatureRequest)
    (w : World) : result Code Proto.SubmitTemperatureResponse * World :=
  if (List.length (Proto.Readings req) =? 0)%nat then
    (Err InvalidArgument, w)
  else
    match Transaction (submitLoop_v0 (Proto.Readings req)) w with
    | (Some _, w') => (Err Internal, w')
    | (None, w') =>
        (Ok {| Proto.Success := true;
               Proto.Message := "Temperature readings saved successfully" |},
         w')
    end.

(** *** Finisher methods of a query handle *)

Definition sendG : G bool :=
  fun g => let (ok, w) := send (world g) in
           (ok, {| world := w; heap := heap g |}).

(** [db.Find(&readings)] *)
Definition Find (db : DB) : G (result DbError (list TemperatureReading)) :=
  tx <- getInstance db ;;
  ok <- sendG ;;
  fun g =>
    if negb ok then (Err ErrDatabase, g)
    else
      (Ok (select_rows (heap g) (statement_at (heap g) (stmt tx))
             (temperature_readings (store (world g)))), g).

(** [db.Pluck("sensor_id", &sensorIds)] *)
Definition Pluck (db : DB) : G (result DbError (list string)) :=
  tx <- getInstance db ;;
  ok <- sendG ;;
  fun g =>
    if negb ok then (Err ErrDatabase, g)
    else
      let s := statement_at (heap g) (stmt tx) in
      let column :=
        map rSensorID
          (select_rows (heap g) s (temperature_readings (store (world g)))) in
      (Ok (if IsDistinct s then dedup column else column), g).

(** [db.Scan(&stats)] of the aggregate selection: one row, over the
    rows the statement selects. *)
Definition Scan (db : DB) : G (result DbError Aggregates) :=
  tx <- getInstance db ;;
  ok <- sendG ;;
  fun g =>
    if negb ok then (Err ErrDatabase, g)
    else
      (Ok (aggregate
             (select_rows (heap g) (statement_at (heap g) (stmt tx))
                (temperature_readings (store (world g))))), g).

(** The handle [gorm.Open] returned, kept in [s.db], and the state a
    service call starts from. *)
Definition s_db : DB := {| clone := 1; stmt := 0 |}.

Definition enter (w : World) : GState := {| world := w; heap := [blank] |}.

Definition run {A} (m : G A) (w : World) : A * World :=
  let (a, g) := m (enter w) in (a, world g).

Definition toProto (reading : TemperatureReading) : Proto.TemperatureReading :=
  {| Proto.SensorId := rSensorID reading;
     Proto.ClientId := rClientID reading;
     Proto.TemperatureCelsius := rTemperatureCelsius reading;
     Proto.Timestamp := Some (rCreatedAt reading);
     Proto.SensorType := rSensorType reading;
     Proto.SensorName := rSensorName reading |}.

(** *** [GetTemperatureHistory] *)

(** Lines 148-151: the limit the query runs with. *)
Definition effectiveLimit (limit : Z) : Z :=
  if (limit <=? 0) || (limit >? 1000) then 100 else limit.

Definition GetTemperatureHistory (req : Proto.GetTemperatureHistoryRequest)
    : World -> result Code (list Proto.TemperatureReading) * World :=
  run (
    query <- Model s_db ;;
    query <- (if negb (Proto.hist_ClientId req =? "")%string
              then Where query (ClientIdEq (Proto.hist_ClientId req))
              else ret query) ;;
    query <- (if negb (Proto.hist_SensorId req =? "")%string
              then Where query (SensorIdEq (Proto.hist_SensorId req))
              else ret query) ;;
    query <- (match Proto.hist_StartTime req with
              | Some t => Where query (CreatedAtGe t)
              | None => ret query
              end) ;;
    query <- (match Proto.hist_EndTime req with
              | Some t => Where query (CreatedAtLe t)
              | None => ret query
              end) ;;
    let limit := effectiveLimit (Proto.hist_Limit req) in
    query <- Order query ;;
    query <- Limit query limit ;;
    found <- Find query ;;
    match found with
    | Err _ => ret (Err Internal)
    | Ok readings => ret (Ok (map toProto readings))
    end).

(** *** [GetCurrentTemperatures] *)
Definition GetCurrentTemperatures (req : Proto.GetCurrentTemperaturesRequest)
    : World -> result Code (list Proto.TemperatureReading) * World :=
  run (
    if (Proto.cur_ClientId req =? "")%string then ret (Err InvalidArgument)
    else
      (* Get the latest reading for each sensor of the client *)
      subQuery <- Model s_db ;;
      subQuery <- Select subQuery SelSensorMaxCreated ;;
      subQuery <- Where subQuery (ClientIdEq (Proto.cur_ClientId req)) ;;
      subQuery <- Group subQuery ;;
      query <- Model s_db ;;
      query <- Joins query subQuery ;;
      query <- Where query (ClientIdEq (Proto.cur_ClientId req)) ;;
      found <- Find query ;;
      match found with
      | Err _ => ret (Err Internal)
      | Ok readings => ret (Ok (map toProto readings))
      end).

(** *** [GetTemperatureStats] *)

(** [sensorStats[sensorId] = ...] on a Go map kept as an association
    list: an existing key is overwritten in place. *)
Fixpoint map_set (m : list (string * Proto.TemperatureStats)) (k : string)
    (v : Proto.TemperatureStats) : list (string * Proto.TemperatureStats) :=
  match m with
  | [] => [(k, v)]
  | (k', v') :: t =>
      if (k' =? k)%string then (k, v) :: t else (k', v') :: map_set t k v
  end.

Fixpoint map_get (m : list (string * Proto.TemperatureStats)) (k : string)
    : option Proto.TemperatureStats :=
  match m with
  | [] => None
  | (k', v') :: t => if (k' =? k)%string then Some v' else map_get t k
  end.

(** The loop over [sensorIds]: every iteration calls [Where] on the one
    handle [baseQuery].  That handle was returned by a chain method, its
    [clone] is 0 and [getInstance] returns it as it is: the condition is
    merged into the WHERE clause of its statement and is still there in
    the iterations that follow. *)
Fixpoint statsLoop (baseQuery : DB) (req : Proto.GetTemperatureStatsRequest)
    (sensorIds : list string)
    (sensorStats : list (string * Proto.TemperatureStats))
    : G (result Code (list (string * Proto.TemperatureStats))) :=
  match sensorIds with
  | [] => ret (Ok sensorStats)
  | sensorId :: rest =>
      query <- Where baseQuery (SensorIdEq sensorId) ;;
      query <- Select query SelAggregates ;;
      scanned <- Scan query ;;
      match scanned with
      | Err _ => ret (Err Internal)
      | Ok stats =>
          statsLoop baseQuery req rest
            (map_set sensorStats sensorId
               {| Proto.MinTemperature := MinTemp stats;
                  Proto.MaxTemperature := MaxTemp stats;
                  Proto.AvgTemperature := AvgTemp stats;
                  Proto.ReadingCount := Count stats;
                  Proto.PeriodStart := Proto.stats_StartTime req;
                  Proto.PeriodEnd := Proto.stats_EndTime req |})
      end
  end.

Definition GetTemperatureStats (req : Proto.GetTemperatureStatsRequest)
    : World -> result Code (list (string * Proto.TemperatureStats)) * World :=
  run (
    baseQuery <- Model s_db ;;
    baseQuery <- (if negb (Proto.stats_ClientId req =? "")%string
                  then Where baseQuery (ClientIdEq (Proto.stats_ClientId req))
                  else ret baseQuery) ;;
    baseQuery <- (match Proto.stats_StartTime req with
                  | Some t => Where baseQuery (CreatedAtGe t)
                  | None => ret baseQuery
                  end) ;;
    baseQuery <- (match Proto.stats_EndTime req with
                  | Some t => Where baseQuery (CreatedAtLe t)
                  | None => ret baseQuery
                  end) ;;
    (* If specific sensor_id is requested, only get stats for that sensor *)
    plucked <- (if negb (Proto.stats_SensorId req =? "")%string
                then ret (Ok [Proto.stats_SensorId req])
                else
                  (* Get all sensor IDs that match the criteria *)
                  distinct <- Distinct baseQuery ;;
                  Pluck distinct) ;;
    match plucked with
    | Err _ => ret (Err Internal)
    | Ok sensorIds => statsLoop baseQuery req sensorIds []
    end).

(** *** What the specification asks of the statistics

    The readings of the window: those that pass the host and
    time-range filters of the request; the sensors present in it; and
    the aggregate of one sensor's readings in it. *)
Definition in_window (req : Proto.GetTemperatureStatsRequest)
    (r : TemperatureReading) : bool :=
  ((Proto.stats_ClientId req =? "")%string
     || (rClientID r =? Proto.stats_ClientId req)%string)
  && match Proto.stats_StartTime req with
     | Some t => t <=? rCreatedAt r
     | None => true
     end
  && match Proto.stats_EndTime req with
     | Some t => rCreatedAt r <=? t
     | None => true
     end.

Definition window (req : Proto.GetTemperatureStatsRequest) (s : Store)
    : list TemperatureReading :=
  filter (in_window req) (temperature_readings s).

Definition sensor_readings (req : Proto.GetTemperatureStatsRequest)
    (s : Store) (sensorId : string) : list TemperatureReading :=
  filter (fun r => (rSensorID r =? sensorId)%string) (window req s).

(** The filters of a history request: each one is optional, those given
    hold together. *)
Definition history_filter (req : Proto.GetTemperatureHistoryRequest)
    (r : TemperatureReading) : bool :=
  ((Proto.hist_ClientId req =? "")%string
     || (rClientID r =? Proto.hist_ClientId req)%string)
  && ((Proto.hist_SensorId req =? "")%string
        || (rSensorID r =? Proto.hist_SensorId req)%string)
  && match Proto.hist_StartTime req with
     | Some t => t <=? rCreatedAt r
     | None => true
     end
  && match Proto.hist_EndTime req with
     | Some t => rCreatedAt r <=? t
     | None => true
     end.

(** A world after one more statement. *)
Definition sent (w : World) : World :=
  {| store := store w; executed := S (executed w); ticks := ticks w |}.

(** The limit as the specification words it: clamped to the interval,
    the default when none is given. *)
Definition clampLimit (limit : Z) : Z :=
  if limit <=? 0 then 100 else Z.min limit 1000.

End Backend.
End Service.

(** ** Specification-side notions and sample data

    Notions the properties are stated with, and the concrete inputs the
    examples run on. *)

Import GoStrings Monitor Poller.
Import Models Gorm Service.

(** A machine with one hwmon device: channel 1 reads 45000, channel 2
    holds text that is no number, channel 3 cannot be read, channel 4
    reads 38500. *)
Definition sample_fs : FS :=
  {| Glob := fun pattern =>
       if (pattern =? "/sys/class/hwmon/hwmon*")%string then
         Ok ["/sys/class/hwmon/hwmon0"]
       else if (pattern =? "/sys/class/hwmon/hwmon0/temp*_input")%string then
         Ok ["/sys/class/hwmon/hwmon0/temp1_input";
             "/sys/class/hwmon/hwmon0/temp2_input";
             "/sys/class/hwmon/hwmon0/temp3_input";
             "/sys/class/hwmon/hwmon0/temp4_input"]
       else Ok [];
     ReadFile := fun path =>
       if (path =? "/sys/class/hwmon/hwmon0/name")%string then
         Ok (String "c" (String "o" (String "r" (String "e"
            (String "t" (String "e" (String "m" (String "p"
            (String (ascii_of_nat 10) EmptyString)))))))))
       else if (path =? "/sys/class/hwmon/hwmon0/temp1_input")%string then
         Ok (String "4" (String "5" (String "0" (String "0" (String "0"
            (String (ascii_of_nat 10) EmptyString))))))
       else if (path =? "/sys/class/hwmon/hwmon0/temp1_label")%string then
         Ok "Package id 0"
       else if (path =? "/sys/class/hwmon/hwmon0/temp2_input")%string then
         Ok "n/a"
       else if (path =? "/sys/class/hwmon/hwmon0/temp3_input")%string then
         Err ErrIO
       else if (path =? "/sys/class/hwmon/hwmon0/temp4_input")%string then
         Ok "38500"
       else Err ErrNotExist |}.

(** [newer_first a b]: [a] may stand before [b] in a descending order. *)
Definition newer_first (a b : TemperatureReading) : Prop :=
  rCreatedAt b <= rCreatedAt a.

(** A store of 101 readings of one sensor, taken at instants 1 to 101. *)
Definition reading_at (i : nat) : TemperatureReading :=
  {| rID := i; rSensorID := "hwmon0_1"; rClientID := "h1";
     rTemperatureCelsius := 40%Q; rSensorType := "CPU";
     rSensorName := "Package"; rCreatedAt := Z.of_nat i |}.

Definition busy_world : World :=
  {| store := {| clients := []; sensors := [];
                 temperature_readings := map reading_at (seq 1 101) |};
     executed := 0; ticks := 0 |}.

Definition all_readings (limit : Z) : Proto.GetTemperatureHistoryRequest :=
  {| Proto.hist_ClientId := ""; Proto.hist_SensorId := "";
     Proto.hist_StartTime := None; Proto.hist_EndTime := None;
     Proto.hist_Limit := limit |}.

(** The readings of a host, and the latest instant of one of its sensors. *)
Definition host_rows (h : string) (all : list TemperatureReading)
    : list TemperatureReading :=
  filter (fun r => (rClientID r =? h)%string) all.

Definition latest_instant (h sid : string) (all : list TemperatureReading) : Time :=
  max_time (map rCreatedAt
              (filter (fun r => (rSensorID r =? sid)%string) (host_rows h all))).

Definition is_latest (h : string) (all : list TemperatureReading)
    (r : TemperatureReading) : bool :=
  (rClientID r =? h)%string
  && (rCreatedAt r =? latest_instant h (rSensorID r) all).

(** A backend without faults and a clock that reads 1000, 1001, ... *)
Definition no_fault (k : nat) : bool := false.

Definition sample_clock (k : nat) : Time := 1000 + Z.of_nat k.

Definition fresh_world : World :=
  {| store := empty_store; executed := 0; ticks := 0 |}.

Definition wire (sensorId hostId : string) (celsius : Q) (type name : string)
    (observedAt : Time) : Proto.TemperatureReading :=
  {| Proto.SensorId := sensorId; Proto.ClientId := hostId;
     Proto.TemperatureCelsius := celsius; Proto.Timestamp := Some observedAt;
     Proto.SensorType := type; Proto.SensorName := name |}.

Definition batch (rs : list Proto.TemperatureReading)
    : Proto.SubmitTemperatureRequest :=
  {| Proto.Readings := rs |}.

Definition submit (rs : list Proto.TemperatureReading) (w : World) : World :=
  snd (SubmitTemperature sample_clock no_fault (batch rs) w).

(** One batch delivered twice, as an agent does that repeats a call whose
    answer was lost. *)
Definition resubmitted_world : World :=
  submit [wire "hwmon0_1" "h1" 55 "CPU" "Package" 500]
    (submit [wire "hwmon0_1" "h1" 55 "CPU" "Package" 500] fresh_world).

(** The row of a host: the first one with its identifier. *)
Definition host (h : string) (s : Store) : option Client :=
  find (fun c => (cClientID c =? h)%string) (clients s).

Definition seen (id : nat) (now : Time) (c : Client) : Client :=
  if (cID c =? id)%nat then
    {| cID := cID c; cClientID := cClientID c; cFirstSeen := cFirstSeen c;
       cLastSeen := now; cIsOnline := true |}
  else c.

(** What one reading of host [h], processed at [now], does to the table
    when every statement goes through. *)
Definition touch (now : Time) (h : string) (cs : list Client) : list Client :=
  match find (fun c => (cClientID c =? h)%string) cs with
  | Some found =>
      if negb (cID found =? 0)%nat then map (seen (cID found) now) cs else cs
  | None =>
      let row := {| cID := next_id (map cID cs); cClientID := h;
                    cFirstSeen := zeroTime; cLastSeen := now;
                    cIsOnline := true |} in
      map (seen (cID row) now) (cs ++ [row])
  end.

(** A row as the service leaves it: a key that is not the zero value, and
    a first sighting that is not after the last one nor after any reading
    of the clock. *)
Definition settled (clock : nat -> Time) (c : Client) : Prop :=
  cID c <> 0%nat
  /\ cFirstSeen c <= cLastSeen c
  /\ (forall k, cFirstSeen c <= clock k).

(** The scenario of the specification: one sensor of host [h1] reporting
    55.2 degrees at instant 500, then 61.0 degrees at instant 530. *)
Definition first_batch : Proto.SubmitTemperatureRequest :=
  batch [wire "hwmon0_1" "h1" (552 # 10) "CPU" "Package" 500].

Definition second_batch : Proto.SubmitTemperatureRequest :=
  batch [wire "hwmon0_1" "h1" 61 "CPU" "Package" 530].

(** Two sensors of one host, one reading each. *)
Definition two_sensor_world : World :=
  submit [wire "hwmon0_1" "h1" 55 "CPU" "Package" 500;
          wire "hwmon1_1" "h1" 40 "DISK" "Composite" 500] fresh_world.

Definition stats_for (sensorId : string) : Proto.GetTemperatureStatsRequest :=
  {| Proto.stats_ClientId := "h1"; Proto.stats_SensorId := sensorId;
     Proto.stats_StartTime := None; Proto.stats_EndTime := None |}.

(** The conditions [baseQuery] carries when the loop starts. *)
Definition window_conds (req : Proto.GetTemperatureStatsRequest) : list Cond :=
  (if negb (Proto.stats_ClientId req =? "")%string
   then [ClientIdEq (Proto.stats_ClientId req)] else [])
  ++ match Proto.stats_StartTime req with
     | Some t => [CreatedAtGe t]
     | None => []
     end
  ++ match Proto.stats_EndTime req with
     | Some t => [CreatedAtLe t]
     | None => []
     end.

Definition stats_of (req : Proto.GetTemperatureStatsRequest) (a : Aggregates)
    : Proto.TemperatureStats :=
  {| Proto.MinTemperature := MinTemp a;
     Proto.MaxTemperature := MaxTemp a;
     Proto.AvgTemperature := AvgTemp a;
     Proto.ReadingCount := Count a;
     Proto.PeriodStart := Proto.stats_StartTime req;
     Proto.PeriodEnd := Proto.stats_EndTime req |}.

(** What the loop computes when every statement goes through: each
    sensor is aggregated under the conditions of the window and of all the
    sensors before it. *)
Fixpoint accumulated_stats (req : Proto.GetTemperatureStatsRequest)
    (all : list TemperatureReading) (conds : list Cond) (sensorIds : list string)
    (sensorStats : list (string * Proto.TemperatureStats))
    : list (string * Proto.TemperatureStats) :=
  match sensorIds with
  | [] => sensorStats
  | sensorId :: rest =>
      let conds' := conds ++ [SensorIdEq sensorId] in
      accumulated_stats req all conds' rest
        (map_set sensorStats sensorId
           (stats_of req (aggregate (filter (holds_all conds') all))))
  end.

(** ** Further notions

    Notions the further properties are stated with. *)

(** A stored row that carries what a wire reading carries: the same
    identifiers, value, type and name, and the instant of the reading
    unless that is the zero time. *)
Definition stored_as (reading : Proto.TemperatureReading)
    (row : TemperatureReading) : Prop :=
  rSensorID row = Proto.SensorId reading
  /\ rClientID row = Proto.ClientId reading
  /\ rTemperatureCelsius row = Proto.TemperatureCelsius reading
  /\ rSensorType row = Proto.SensorType reading
  /\ rSensorName row = Proto.SensorName reading
  /\ (Proto.AsTime (Proto.Timestamp reading) <> zeroTime ->
      rCreatedAt row = Proto.AsTime (Proto.Timestamp reading)).

(** The keys of a store are in order: primary keys are distinct and none
    is the zero value, and no two hosts share a [client_id] nor two
    sensors a [sensor_id] (the unique indexes of the models). *)
Definition keys_ok (s : Store) : Prop :=
  NoDup (map cID (clients s)) /\ ~ In 0%nat (map cID (clients s))
  /\ NoDup (map cClientID (clients s))
  /\ NoDup (map sID (sensors s)) /\ ~ In 0%nat (map sID (sensors s))
  /\ NoDup (map sSensorID (sensors s))
  /\ NoDup (map rID (temperature_readings s))
  /\ ~ In 0%nat (map rID (temperature_readings s)).

(** A step of a service call that leaves the store and the clock as they
    are. *)
Definition quiet {A : Type} (m : G A) : Prop :=
  forall g, store (world (snd (m g))) = store (world g)
            /\ ticks (world (snd (m g))) = ticks (world g).

(** [c] occurs in [s]. *)
Fixpoint has_char (c : ascii) (s : string) : bool :=
  match s with
  | EmptyString => false
  | String x t => Ascii.eqb x c || has_char c t
  end.

(** The samples a result holds, none for a failure. *)
Definition samples_of (r : result OsError (list TemperatureSensor))
    : list TemperatureSensor :=
  match r with
  | Ok l => l
  | Err _ => []
  end.

(** The range of [int64]. *)
Definition fits_int64 (v : Z) : Prop := - 2 ^ 63 <= v < 2 ^ 63.

(** A machine with two thermal zones and no hwmon device: zone 0 reads
    42000 and says it is the package sensor, zone 1 cannot be read. *)
Definition thermal_fs : FS :=
  {| Glob := fun pattern =>
       if (pattern =? "/sys/class/thermal/thermal_zone*")%string then
         Ok ["/sys/class/thermal/thermal_zone0";
             "/sys/class/thermal/thermal_zone1"]
       else Ok [];
     ReadFile := fun path =>
       if (path =? "/sys/class/thermal/thermal_zone0/temp")%string then
         Ok "42000"
       else if (path =? "/sys/class/thermal/thermal_zone0/type")%string then
         Ok "x86_pkg_temp"
       else Err ErrIO |}.

(** What the two copies of [SubmitTemperature] give a host row alike:
    its key, its [client_id] and its [first_seen]. *)
Definition client_key (c : Client) : nat * string * Time :=
  (cID c, cClientID c, cFirstSeen c).

(** Two stores that differ at most in [last_seen] and [is_online] of
    their hosts. *)
Definition same_but_presence (s1 s2 : Store) : Prop :=
  sensors s1 = sensors s2
  /\ temperature_readings s1 = temperature_readings s2
  /\ map client_key (clients s1) = map client_key (clients s2).

(* ================================================================== *)
(** * Part II: properties                                              *)
(* ================================================================== *)

(** ** Strings *)
Section StringFacts.

Lemma HasPrefix_spec (s pre : string) :
  HasPrefix s pre = true <-> exists rest, s = (pre ++ rest)%string.
Proof.
  revert s; induction pre as [|p pre IH]; intros s; simpl.
  - split; [intros _; now exists s | reflexivity].
  - destruct s as [|c s]; simpl.
    + split; [discriminate | intros [rest H]; discriminate].
    + rewrite andb_true_iff, Ascii.eqb_eq, IH. split.
      * intros [-> [rest ->]]. now exists rest.
      * intros [rest H]. injection H as -> ->. split; [reflexivity | now exists rest].
Qed.

(** [Contains] is the substring relation. *)
Lemma Contains_spec (s sub : string) :
  Contains s sub = true <-> exists a b, s = (a ++ sub ++ b)%string.
Proof.
  induction s as [|c s IH].
  - simpl. rewrite orb_false_r, HasPrefix_spec. split.
    + intros [rest H]. now exists EmptyString, rest.
    + intros [a [b H]]. destruct a; simpl in H; [now exists b | discriminate].
  - cbn [Contains]. rewrite orb_true_iff, HasPrefix_spec, IH. split.
    + intros [[rest H] | [a [b H]]].
      * now exists EmptyString, rest.
      * exists (String c a), b. simpl. now rewrite H.
    + intros [a [b H]]. destruct a as [|c' a]; simpl in H.
      * left. now exists b.
      * right. injection H as _ H. now exists a, b.
Qed.

Lemma lower_byte_idem (c : ascii) : lower_byte (lower_byte c) = lower_byte c.
Proof.
  destruct c as [[] [] [] [] [] [] [] []]; reflexivity.
Qed.

Lemma ToLower_idem (s : string) : ToLower (ToLower s) = ToLower s.
Proof.
  induction s as [|c s IH]; simpl; [reflexivity|].
  now rewrite lower_byte_idem, IH.
Qed.

Lemma Split_nonempty (s : string) (sep : ascii) : Split s sep <> [].
Proof.
  destruct s as [|c s]; simpl; [discriminate|].
  destruct (Ascii.eqb c sep); [discriminate|].
  destruct (Split s sep); discriminate.
Qed.

(** A string with a separator in it splits into two parts at least. *)
Lemma Split_two (a b : string) (sep : ascii) :
  (2 <= List.length (Split (a ++ String sep b) sep))%nat.
Proof.
  induction a as [|c a IH]; simpl.
  - rewrite Ascii.eqb_refl. simpl.
    pose proof (Split_nonempty b sep). destruct (Split b sep); [congruence | simpl; lia].
  - destruct (Ascii.eqb c sep).
    + simpl. pose proof (Split_nonempty (a ++ String sep b) sep).
      destruct (Split (a ++ String sep b) sep); [congruence | simpl; lia].
    + destruct (Split (a ++ String sep b) sep) as [|p ps]; simpl in *; lia.
Qed.

Lemma append_assoc (a b c : string) :
  ((a ++ b) ++ c = a ++ (b ++ c))%string.
Proof.
  induction a as [|x a IH]; simpl; [reflexivity | now rewrite IH].
Qed.

Lemma temp_input_splits (name : string) :
  Monitor.temp_input_name name ->
  (List.length (Split name "_"%char) <? 2)%nat = false.
Proof.
  intros [x ->]. apply Nat.ltb_ge.
  change ("temp" ++ x ++ "_input")%string
    with ("temp" ++ (x ++ String "_"%char "input"))%string.
  rewrite <- append_assoc. apply Split_two.
Qed.

End StringFacts.

(** ** The scanner *)
Section ScannerFacts.

(** A loop that only ever appends is a [flat_map]. *)
Lemma fold_left_appending {A B : Type} (step : list B -> A -> list B) :
  (forall acc x, step acc x = acc ++ step [] x) ->
  forall xs acc, fold_left step xs acc = acc ++ flat_map (step []) xs.
Proof.
  intros Hstep xs; induction xs as [|x xs IH]; intros acc; simpl.
  - now rewrite app_nil_r.
  - rewrite IH, (Hstep acc x), <- app_assoc. reflexivity.
Qed.

Lemma hwmonChannel_appends fs hwmonDir deviceName acc tempFile :
  hwmonChannel fs hwmonDir deviceName acc tempFile
  = acc ++ hwmonChannel fs hwmonDir deviceName [] tempFile.
Proof.
  unfold hwmonChannel.
  destruct (List.length _ <? 2)%nat; [now rewrite app_nil_r|].
  destruct (ReadFile fs tempFile); [|now rewrite app_nil_r].
  destruct (ParseInt _); [reflexivity | now rewrite app_nil_r].
Qed.

(** A channel that is unreadable or does not parse adds nothing. *)
Lemma hwmonChannel_skips fs hwmonDir deviceName tempFile :
  parseable fs tempFile = false ->
  hwmonChannel fs hwmonDir deviceName [] tempFile = [].
Proof.
  unfold parseable, channel_value, hwmonChannel. intros H.
  destruct (List.length _ <? 2)%nat; [reflexivity|].
  destruct (ReadFile fs tempFile); [|reflexivity].
  destruct (ParseInt _); [discriminate | reflexivity].
Qed.

(** A channel that parses adds one sample, with its value, the type the
    heuristic gives to its name, and the identifier of its file. *)
Lemma hwmonChannel_keeps fs hwmonDir deviceName tempFile v :
  temp_input_name (Base tempFile) ->
  channel_value fs tempFile = Some v ->
  exists s,
    hwmonChannel fs hwmonDir deviceName [] tempFile = [s]
    /\ TempMilliC s = v
    /\ Type' s = classify (Name s) deviceName.
Proof.
  unfold channel_value, hwmonChannel. intros Hname H.
  rewrite (temp_input_splits Hname).
  destruct (ReadFile fs tempFile); [|discriminate].
  rewrite H. simpl. eexists; repeat split.
Qed.

Lemma thermalZone_appends fs acc thermalDir :
  thermalZone fs acc thermalDir = acc ++ thermalZone fs [] thermalDir.
Proof.
  unfold thermalZone.
  destruct (ReadFile fs _); [|now rewrite app_nil_r].
  destruct (ParseInt _); [reflexivity | now rewrite app_nil_r].
Qed.

Lemma hwmonDevice_appends fs acc hwmonDir :
  hwmonDevice fs acc hwmonDir = acc ++ hwmonDevice fs [] hwmonDir.
Proof.
  unfold hwmonDevice.
  destruct (readHwmonDevice fs hwmonDir); [reflexivity | now rewrite app_nil_r].
Qed.

(** The samples of one device against its channels. *)
Lemma device_samples fs hwmonDir deviceName tempFiles :
  Forall (fun f => temp_input_name (Base f)) tempFiles ->
  Forall2 (fun f s => channel_value fs f = Some (TempMilliC s)
                      /\ Type' s = classify (Name s) deviceName)
    (filter (parseable fs) tempFiles)
    (flat_map (hwmonChannel fs hwmonDir deviceName []) tempFiles).
Proof.
  induction 1 as [|f fs' Hf _ IH]; simpl; [constructor|].
  destruct (parseable fs f) eqn:Hp.
  - unfold parseable in Hp. destruct (channel_value fs f) as [v|] eqn:Hv; [|discriminate].
    destruct (hwmonChannel_keeps fs hwmonDir deviceName f Hf Hv) as [s [-> [Hs Ht]]].
    simpl. constructor; [|exact IH]. now rewrite Hs.
  - rewrite (hwmonChannel_skips fs hwmonDir deviceName f Hp). exact IH.
Qed.

Lemma hwmon_samples fs hwmonDirs :
  Forall (fun f => temp_input_name (Base f)) (hwmon_channels fs hwmonDirs) ->
  Forall2 (fun f s => channel_value fs f = Some (TempMilliC s))
    (filter (parseable fs) (hwmon_channels fs hwmonDirs))
    (flat_map (hwmonDevice fs []) hwmonDirs).
Proof.
  unfold hwmon_channels.
  induction hwmonDirs as [|d ds IH]; simpl; [constructor|].
  intros H. apply Forall_app in H as [Hd Hds].
  rewrite filter_app. apply Forall2_app; [|now apply IH].
  unfold hwmonDevice, readHwmonDevice.
  destruct (Glob fs (Join d "temp*_input")) as [tempFiles|e]; simpl; [|constructor].
  rewrite fold_left_appending by apply hwmonChannel_appends. simpl.
  eapply Forall2_impl; [|apply device_samples; exact Hd].
  intros f s [H1 _]; exact H1.
Qed.

End ScannerFacts.

(** ** The heuristic, the scan and the filter *)

Lemma Contains_ci (s sub : string) :
  Contains (ToLower s) sub = true <-> contains_ci s sub.
Proof. apply Contains_spec. Qed.

Lemma Contains_ci_false (s sub : string) :
  Contains (ToLower s) sub = false <-> ~ contains_ci s sub.
Proof.
  rewrite <- Contains_ci. destruct (Contains (ToLower s) sub); split; congruence.
Qed.


(** C6: when the hwmon devices can be listed, the scan succeeds whatever
    the channel files hold, and its hwmon samples are, in order, one per
    channel whose file is readable and parses as a 64-bit decimal integer,
    with that value; a channel that is unreadable or does not parse gives
    no sample and takes no sample of a sibling away.  The samples of the
    thermal zones follow. *)
Theorem scan_one_sample_per_parseable_channel :
  forall (m : TemperatureMonitor) (fs : FS) (hwmonDirs : list string),
    Glob fs (Join (hwmonPath m) "hwmon*") = Ok hwmonDirs ->
    Forall (fun f => temp_input_name (Base f)) (hwmon_channels fs hwmonDirs) ->
    exists hwmon thermal,
      GetTemperatures m fs = Ok (hwmon ++ thermal)
      /\ Forall2 (fun f s => channel_value fs f = Some (TempMilliC s))
           (filter (parseable fs) (hwmon_channels fs hwmonDirs)) hwmon
      /\ List.length hwmon
         = List.length (filter (parseable fs) (hwmon_channels fs hwmonDirs))
      /\ (forall before bad after,
             parseable fs bad = false ->
             forall hwmonDir deviceName,
               fold_left (hwmonChannel fs hwmonDir deviceName)
                 (before ++ bad :: after) []
               = fold_left (hwmonChannel fs hwmonDir deviceName)
                   (before ++ after) []).
Proof.
  intros m fs hwmonDirs HGlob Hnames.
  pose proof (hwmon_samples fs hwmonDirs Hnames) as Hall.
  exists (flat_map (hwmonDevice fs []) hwmonDirs).
  exists (match readThermalZones fs with Ok t => t | Err _ => [] end).
  split; [|split; [exact Hall|split]].
  - unfold GetTemperatures. rewrite HGlob.
    rewrite fold_left_appending by apply hwmonDevice_appends. simpl.
    destruct (readThermalZones fs); [reflexivity | now rewrite app_nil_r].
  - symmetry. eapply Forall2_length; exact Hall.
  - intros before bad after Hbad hwmonDir deviceName.
    rewrite !fold_left_appending by apply hwmonChannel_appends.
    rewrite !flat_map_app. simpl.
    now rewrite (hwmonChannel_skips fs hwmonDir deviceName bad Hbad).
Qed.

Example sample_fs_scan :
  GetTemperatures NewTemperatureMonitor sample_fs
  = Ok [ {| ID := "hwmon0_1"; Type' := "CPU"; Name := "Package id 0";
            TempMilliC := 45000 |};
         {| ID := "hwmon0_4"; Type' := "CPU"; Name := "coretemp_temp4";
            TempMilliC := 38500 |} ].
Proof. vm_compute. reflexivity. Qed.

Lemma scan_one_sample_per_parseable_channel_witness :
  exists hwmon thermal,
    GetTemperatures NewTemperatureMonitor sample_fs = Ok (hwmon ++ thermal)
    /\ Forall2 (fun f s => channel_value sample_fs f = Some (TempMilliC s))
         (filter (parseable sample_fs)
            (hwmon_channels sample_fs ["/sys/class/hwmon/hwmon0"])) hwmon
    /\ List.length hwmon
       = List.length (filter (parseable sample_fs)
                        (hwmon_channels sample_fs ["/sys/class/hwmon/hwmon0"]))
    /\ (forall before bad after,
           parseable sample_fs bad = false ->
           forall hwmonDir deviceName,
             fold_left (hwmonChannel sample_fs hwmonDir deviceName)
               (before ++ bad :: after) []
             = fold_left (hwmonChannel sample_fs hwmonDir deviceName)
                 (before ++ after) []).
Proof.
  apply (scan_one_sample_per_parseable_channel NewTemperatureMonitor sample_fs).
  - reflexivity.
  - simpl. repeat constructor.
    + exists "1"; reflexivity.
    + exists "2"; reflexivity.
    + exists "3"; reflexivity.
    + exists "4"; reflexivity.
Defined.

(** The filter loop keeps, in order, the sensors its [switch] includes. *)
Lemma filterSensors_filter (cfg : Config) (sensors : list TemperatureSensor) :
  filterSensors cfg sensors
  = filter (fun sensor =>
              if (Type' sensor =? "CPU")%string then CPU (Monitoring cfg)
              else if (Type' sensor =? "GPU")%string then GPU (Monitoring cfg)
              else if (Type' sensor =? "DISK")%string then Disk (Monitoring cfg)
              else true) sensors.
Proof.
  unfold filterSensors.
  rewrite fold_left_appending.
  - simpl. induction sensors as [|s l IH]; simpl; [reflexivity|].
    rewrite IH. unfold filterStep.
    destruct (if (Type' s =? "CPU")%string then _ else _); reflexivity.
  - intros acc x. unfold filterStep.
    destruct (if (Type' x =? "CPU")%string then _ else _);
      [reflexivity | now rewrite app_nil_r].
Qed.

(** C7: of the scanned samples, one of type CPU, GPU or DISK is in the
    filtered batch exactly when the flag of its type is enabled, one of any
    other type is always in it, and nothing else is; when the filtered
    batch is empty the cycle returns no error and makes no submission. *)
Theorem filter_policy :
  forall (cfg : Config) (sensors : list TemperatureSensor),
    (forall s, In s sensors -> Type' s = "CPU" ->
               (In s (filterSensors cfg sensors) <-> CPU (Monitoring cfg) = true))
    /\ (forall s, In s sensors -> Type' s = "GPU" ->
                  (In s (filterSensors cfg sensors) <-> GPU (Monitoring cfg) = true))
    /\ (forall s, In s sensors -> Type' s = "DISK" ->
                  (In s (filterSensors cfg sensors) <-> Disk (Monitoring cfg) = true))
    /\ (forall s, In s sensors ->
                  Type' s <> "CPU" -> Type' s <> "GPU" -> Type' s <> "DISK" ->
                  In s (filterSensors cfg sensors))
    /\ (forall s, In s (filterSensors cfg sensors) -> In s sensors)
    /\ (forall rpc now fs monitor clientID,
           GetTemperatures monitor fs = Ok sensors ->
           filterSensors cfg sensors = [] ->
           exists events,
             collectAndSendTemperatures rpc now fs monitor clientID cfg
             = (None, events)
             /\ existsb is_submission events = false).
Proof.
  intros cfg sensors.
  assert (Hflag : forall s ty flag,
             In s sensors -> Type' s = ty ->
             (if (ty =? "CPU")%string then CPU (Monitoring cfg)
              else if (ty =? "GPU")%string then GPU (Monitoring cfg)
              else if (ty =? "DISK")%string then Disk (Monitoring cfg)
              else true) = flag ->
             (In s (filterSensors cfg sensors) <-> flag = true)).
  { intros s ty flag Hin Hty Hflag. rewrite filterSensors_filter, filter_In.
    rewrite Hty, Hflag. tauto. }
  split; [|split; [|split; [|split; [|split]]]].
  - intros s Hin Hty. now apply (Hflag s "CPU").
  - intros s Hin Hty. now apply (Hflag s "GPU").
  - intros s Hin Hty. now apply (Hflag s "DISK").
  - intros s Hin H1 H2 H3. apply (Hflag s (Type' s) true Hin eq_refl); [|reflexivity].
    apply String.eqb_neq in H1, H2, H3. now rewrite H1, H2, H3.
  - intros s H. rewrite filterSensors_filter in H. now apply filter_In in H.
  - intros rpc now fs monitor clientID Hscan Hempty.
    unfold collectAndSendTemperatures. rewrite Hscan.
    destruct sensors as [|s0 rest].
    + eexists; split; reflexivity.
    + rewrite Hempty. eexists; split; reflexivity.
Qed.

(** ** The service *)

(** C3: a request without readings is answered with InvalidArgument and
    leaves the world as it was: the store is the same and no statement, not
    even the BEGIN of a transaction, has been sent to the backend.  Both
    copies of [SubmitTemperature] behave so. *)
Theorem submit_empty_batch_rejected :
  forall (clock : nat -> Time) (faulty : nat -> bool)
         (req : Proto.SubmitTemperatureRequest) (w : World),
    Proto.Readings req = [] ->
    SubmitTemperature clock faulty req w = (Err InvalidArgument, w)
    /\ SubmitTemperature_v0 clock faulty req w = (Err InvalidArgument, w).
Proof.
  intros clock faulty req w Hempty.
  unfold SubmitTemperature, SubmitTemperature_v0. rewrite Hempty. split; reflexivity.
Qed.

Lemma submit_empty_batch_rejected_witness :
  SubmitTemperature (fun _ => 0) (fun _ => false) {| Proto.Readings := [] |}
    {| store := empty_store; executed := 0; ticks := 0 |}
  = (Err InvalidArgument, {| store := empty_store; executed := 0; ticks := 0 |})
  /\ SubmitTemperature_v0 (fun _ => 0) (fun _ => false) {| Proto.Readings := [] |}
       {| store := empty_store; executed := 0; ticks := 0 |}
     = (Err InvalidArgument, {| store := empty_store; executed := 0; ticks := 0 |}).
Proof.
  apply (submit_empty_batch_rejected (fun _ => 0) (fun _ => false)
           {| Proto.Readings := [] |}
           {| store := empty_store; executed := 0; ticks := 0 |}).
  reflexivity.
Defined.

(** What [GetCurrentTemperatures] answers for a host: one SELECT is sent;
    when it goes through, the rows of the join are returned. *)
Lemma GetCurrentTemperatures_run (faulty : nat -> bool)
    (req : Proto.GetCurrentTemperaturesRequest) (w : World) :
  Proto.cur_ClientId req <> "" ->
  GetCurrentTemperatures faulty req w
  = (if faulty (executed w) then Err Internal
     else
       let all := temperature_readings (store w) in
       let host := [ClientIdEq (Proto.cur_ClientId req)] in
       Ok (map toProto
             (filter (holds_all host)
                (flat_map (fun r => map (fun _ => r)
                                      (filter (join_on r) (latest_per_sensor host all)))
                   all))),
     sent w).
Proof.
  intros Hid. apply String.eqb_neq in Hid.
  unfold GetCurrentTemperatures, run. rewrite Hid.
  cbn. unfold Find, bind, sendG, send. cbn.
  destruct (faulty (executed w)); reflexivity.
Qed.

(** C10: without a host identifier the query is refused with
    InvalidArgument, returns no reading and sends nothing to the backend;
    with one, it never answers InvalidArgument. *)
Theorem current_requires_host :
  forall (faulty : nat -> bool) (req : Proto.GetCurrentTemperaturesRequest)
         (w : World),
    (Proto.cur_ClientId req = "" ->
     GetCurrentTemperatures faulty req w = (Err InvalidArgument, w))
    /\ (Proto.cur_ClientId req <> "" ->
        fst (GetCurrentTemperatures faulty req w) <> Err InvalidArgument).
Proof.
  intros faulty req w. split.
  - intros Hid. unfold GetCurrentTemperatures, run. rewrite Hid. reflexivity.
  - intros Hid. rewrite (GetCurrentTemperatures_run faulty req w Hid).
    simpl. destruct (faulty (executed w)); discriminate.
Qed.

(** *** Ordering by [created_at] *)

Lemma insert_desc_perm (r : TemperatureReading) (l : list TemperatureReading) :
  Permutation (insert_desc r l) (r :: l).
Proof.
  induction l as [|x t IH]; simpl; [reflexivity|].
  destruct (rCreatedAt r <? rCreatedAt x); [|reflexivity].
  rewrite IH. apply perm_swap.
Qed.

Lemma insert_desc_sorted (r : TemperatureReading) (l : list TemperatureReading) :
  StronglySorted newer_first l -> StronglySorted newer_first (insert_desc r l).
Proof.
  induction 1 as [|x t Ht IH Hx]; simpl.
  - repeat constructor.
  - destruct (rCreatedAt r <? rCreatedAt x) eqn:Hlt.
    + apply Z.ltb_lt in Hlt. constructor; [exact IH|].
      apply (Permutation_Forall (Permutation_sym (insert_desc_perm r t))).
      constructor; [unfold newer_first; lia | exact Hx].
    + apply Z.ltb_ge in Hlt. constructor; [now constructor|].
      constructor; [exact Hlt|].
      eapply Forall_impl; [|exact Hx]. unfold newer_first. intros y Hy. lia.
Qed.

Lemma sort_desc_perm (l : list TemperatureReading) : Permutation (sort_desc l) l.
Proof.
  induction l as [|x t IH]; simpl; [reflexivity|].
  rewrite insert_desc_perm. now constructor.
Qed.

Lemma sort_desc_sorted (l : list TemperatureReading) :
  StronglySorted newer_first (sort_desc l).
Proof.
  induction l as [|x t IH]; simpl; [constructor | now apply insert_desc_sorted].
Qed.

(** A sorted list cut in two: both parts are sorted and the first part
    stands before the second. *)
Lemma sorted_cut (a b : list TemperatureReading) :
  StronglySorted newer_first (a ++ b) ->
  StronglySorted newer_first a
  /\ (forall x y, In x a -> In y b -> newer_first x y).
Proof.
  induction a as [|h a IH]; simpl; intros H.
  - split; [constructor | intros x y []].
  - inversion H as [|? ? Hs Hf]; subst.
    destruct (IH Hs) as [Ha Hab]. apply Forall_app in Hf as [Hfa Hfb].
    split; [now constructor|].
    intros x y [<- | Hx] Hy.
    + rewrite Forall_forall in Hfb. now apply Hfb.
    + now apply Hab.
Qed.

Lemma effectiveLimit_range (limit : Z) : 0 < effectiveLimit limit <= 1000.
Proof.
  unfold effectiveLimit.
  destruct (limit <=? 0) eqn:H1; simpl; [lia|].
  destruct (limit >? 1000) eqn:H2; [lia|].
  apply Z.leb_gt in H1. rewrite Z.gtb_ltb in H2. apply Z.ltb_ge in H2. lia.
Qed.

(** What [GetTemperatureHistory] answers: one SELECT is sent; when it goes
    through, the readings that pass the filters, newest first, cut at the
    effective limit. *)
Lemma GetTemperatureHistory_run (faulty : nat -> bool)
    (req : Proto.GetTemperatureHistoryRequest) (w : World) :
  GetTemperatureHistory faulty req w
  = (if faulty (executed w) then Err Internal
     else
       Ok (map toProto
             (firstn (Z.to_nat (effectiveLimit (Proto.hist_Limit req)))
                (sort_desc (filter (history_filter req)
                              (temperature_readings (store w)))))),
     sent w).
Proof.
  unfold GetTemperatureHistory, run, history_filter.
  destruct (Proto.hist_ClientId req =? "")%string,
    (Proto.hist_SensorId req =? "")%string,
    (Proto.hist_StartTime req), (Proto.hist_EndTime req);
    cbn; unfold Find, bind, sendG, send; cbn;
    (destruct (faulty (executed w)); [reflexivity|]);
    cbn; unfold sent, sort_desc;
    (erewrite filter_ext; [reflexivity|]);
    intros r; unfold holds_all; cbn;
    rewrite ?andb_true_r, ?andb_assoc; reflexivity.
Qed.

(** C9, as stated, fails: a limit of 1001 is not brought to the nearest
    bound of the interval but replaced by the default, so that of 101
    stored readings 100 are returned where a clamped limit returns all. *)
Lemma limit_above_1000_is_not_clamped :
  effectiveLimit 1001 = 100
  /\ clampLimit 1001 = 1000
  /\ effectiveLimit 1001 <> clampLimit 1001
  /\ (exists rows,
         fst (GetTemperatureHistory (fun _ => false) (all_readings 1001) busy_world)
         = Ok rows
         /\ List.length rows = 100%nat
         /\ List.length (temperature_readings (store busy_world)) = 101%nat).
Proof.
  split; [reflexivity|]. split; [reflexivity|]. split; [discriminate|].
  eexists. split; [vm_compute; reflexivity|]. split; reflexivity.
Qed.

(** C9 (amended): the limit the query runs with lies in (0, 1000]; a
    missing or non-positive limit gives 100, a limit above 1000 gives 100
    as well, a limit within the interval is kept.  Unless the backend
    fails, the answer holds the readings that pass the filters in
    descending order of [created_at], at most that many of them, and none
    that is left out is newer than one that is returned. *)
Theorem history_limit_and_order :
  forall (faulty : nat -> bool) (req : Proto.GetTemperatureHistoryRequest)
         (w : World),
    let limit := effectiveLimit (Proto.hist_Limit req) in
    0 < limit <= 1000
    /\ (Proto.hist_Limit req <= 0 -> limit = 100)
    /\ (1000 < Proto.hist_Limit req -> limit = 100)
    /\ (0 < Proto.hist_Limit req <= 1000 -> limit = Proto.hist_Limit req)
    /\ (faulty (executed w) = true ->
        fst (GetTemperatureHistory faulty req w) = Err Internal)
    /\ (faulty (executed w) = false ->
        exists rows dropped,
          fst (GetTemperatureHistory faulty req w) = Ok (map toProto rows)
          /\ Z.of_nat (List.length rows) <= limit
          /\ StronglySorted newer_first rows
          /\ Permutation (rows ++ dropped)
               (filter (history_filter req) (temperature_readings (store w)))
          /\ (forall r d, In r rows -> In d dropped -> newer_first r d)
          /\ (dropped <> [] -> Z.of_nat (List.length rows) = limit)).
Proof.
  intros faulty req w limit.
  pose proof (effectiveLimit_range (Proto.hist_Limit req)) as Hrange.
  split; [exact Hrange|].
  split; [|split; [|split; [|split]]].
  - intros H. subst limit. unfold effectiveLimit.
    apply Z.leb_le in H. now rewrite H.
  - intros H. subst limit. unfold effectiveLimit.
    rewrite Z.gtb_ltb. apply Z.ltb_lt in H. rewrite H. now rewrite orb_true_r.
  - intros [H1 H2]. subst limit. unfold effectiveLimit.
    apply Z.leb_gt in H1. rewrite H1, Z.gtb_ltb.
    apply Z.ltb_ge in H2. now rewrite H2.
  - intros Hf. rewrite GetTemperatureHistory_run, Hf. reflexivity.
  - intros Hf. rewrite GetTemperatureHistory_run, Hf. fold limit.
    set (sorted := sort_desc (filter (history_filter req)
                                (temperature_readings (store w)))).
    exists (firstn (Z.to_nat limit) sorted), (skipn (Z.to_nat limit) sorted).
    pose proof (sort_desc_sorted (filter (history_filter req)
                                    (temperature_readings (store w)))) as Hs.
    fold sorted in Hs. rewrite <- (firstn_skipn (Z.to_nat limit) sorted) in Hs.
    apply sorted_cut in Hs as [Hs Hcut].
    split; [reflexivity|]. split; [|split; [exact Hs|split; [|split; [exact Hcut|]]]].
    + pose proof (firstn_le_length (Z.to_nat limit) sorted). lia.
    + rewrite firstn_skipn. apply sort_desc_perm.
    + intros Hd. rewrite length_firstn.
      destruct (Nat.le_gt_cases (List.length sorted) (Z.to_nat limit)) as [Hle|Hgt].
      * exfalso. apply Hd. now apply skipn_all2.
      * rewrite Nat.min_l by lia. lia.
Qed.

(** *** The latest-per-sensor join *)

Lemma dedup_In (x : string) (l : list string) : In x (dedup l) <-> In x l.
Proof.
  induction l as [|y t IH]; simpl; [tauto|].
  rewrite filter_In, IH, negb_true_iff, String.eqb_neq.
  destruct (string_dec y x) as [->|Hne]; [tauto|].
  split; [tauto|]. intros [H|H]; [contradiction | right; split; congruence].
Qed.

Lemma dedup_NoDup (l : list string) : NoDup (dedup l).
Proof.
  induction l as [|y t IH]; simpl; constructor.
  - rewrite filter_In, negb_true_iff, String.eqb_neq. tauto.
  - now apply NoDup_filter.
Qed.

Lemma fold_max_bounds (ts : list Time) (t : Time) :
  t <= fold_left Z.max ts t
  /\ (forall x, In x ts -> x <= fold_left Z.max ts t)
  /\ In (fold_left Z.max ts t) (t :: ts).
Proof.
  revert t; induction ts as [|y ts IH]; intros t; simpl.
  - split; [lia|]. split; [intros x []| now left].
  - destruct (IH (Z.max t y)) as [H1 [H2 H3]].
    split; [lia|]. split.
    + intros x [<- | Hx]; [lia | now apply H2].
    + destruct H3 as [H3 | H3]; [|now right; right].
      destruct (Z.max_spec t y) as [[_ Hm] | [_ Hm]];
        [right; left | left]; rewrite <- H3; congruence.
Qed.

Lemma max_time_ge (l : list Time) (x : Time) : In x l -> x <= max_time l.
Proof.
  destruct l as [|t ts]; simpl; [intros []|].
  destruct (fold_max_bounds ts t) as [H1 [H2 _]].
  intros [<- | Hx]; [exact H1 | now apply H2].
Qed.

Lemma max_time_In (l : list Time) : l <> [] -> In (max_time l) l.
Proof.
  destruct l as [|t ts]; [congruence|]. intros _.
  exact (proj2 (proj2 (fold_max_bounds ts t))).
Qed.

(** With one row per key on the right, the join keeps a row at most once. *)
Lemma join_at_most_once (r : TemperatureReading) (latest : list (string * Time)) :
  NoDup (map fst latest) ->
  map (fun _ => r) (filter (join_on r) latest)
  = if existsb (join_on r) latest then [r] else [].
Proof.
  induction latest as [|[k v] rest IH]; simpl; [reflexivity|].
  intros Hnd. inversion Hnd as [|? ? Hk Hrest]; subst.
  destruct (join_on r (k, v)) eqn:Hj; simpl; [|now apply IH].
  f_equal. rewrite (IH Hrest).
  destruct (existsb (join_on r) rest) eqn:He; [|reflexivity].
  exfalso. apply existsb_exists in He as [[k' v'] [Hin Hj']].
  unfold join_on in Hj, Hj'. simpl in *.
  apply andb_true_iff in Hj as [Hj _], Hj' as [Hj' _].
  apply String.eqb_eq in Hj, Hj'. apply Hk.
  rewrite <- Hj, Hj'. now apply (in_map fst) in Hin.
Qed.

Lemma flat_map_if {A : Type} (p : A -> bool) (l : list A) :
  flat_map (fun x => if p x then [x] else []) l = filter p l.
Proof.
  induction l as [|x t IH]; simpl; [reflexivity|].
  rewrite IH. now destruct (p x).
Qed.

Lemma filter_twice {A : Type} (f g : A -> bool) (l : list A) :
  filter f (filter g l) = filter (fun x => f x && g x) l.
Proof.
  induction l as [|x t IH]; simpl; [reflexivity|].
  destruct (g x); simpl; rewrite ?andb_true_r, ?andb_false_r;
    [destruct (f x)|]; now rewrite IH.
Qed.

Lemma latest_per_sensor_keys (cs : list Cond) (all : list TemperatureReading) :
  NoDup (map fst (latest_per_sensor cs all)).
Proof.
  unfold latest_per_sensor. rewrite map_map. simpl. rewrite map_id.
  apply dedup_NoDup.
Qed.

Lemma holds_host (h : string) (r : TemperatureReading) :
  holds_all [ClientIdEq h] r = (rClientID r =? h)%string.
Proof. unfold holds_all. simpl. now rewrite andb_true_r. Qed.

Lemma joined_is_latest (h : string) (all : list TemperatureReading)
    (r : TemperatureReading) :
  In r all ->
  holds_all [ClientIdEq h] r
    && existsb (join_on r) (latest_per_sensor [ClientIdEq h] all)
  = is_latest h all r.
Proof.
  intros Hin. rewrite holds_host. unfold is_latest.
  destruct (rClientID r =? h)%string eqn:Hh; simpl; [|reflexivity].
  unfold latest_per_sensor.
  rewrite (filter_ext _ _ (holds_host h)). fold (host_rows h all).
  apply eq_true_iff_eq. rewrite existsb_exists, Z.eqb_eq. split.
  - intros [[k v] [Hl Hj]]. apply in_map_iff in Hl as [sid [Heq _]].
    injection Heq as <- <-. unfold join_on in Hj. simpl in Hj.
    apply andb_true_iff in Hj as [Hk Hv].
    apply String.eqb_eq in Hk. apply Z.eqb_eq in Hv.
    rewrite Hv, Hk. reflexivity.
  - intros Hmax. exists (rSensorID r, latest_instant h (rSensorID r) all). split.
    + apply in_map_iff. exists (rSensorID r). split; [reflexivity|].
      apply dedup_In. apply in_map. apply filter_In. now split.
    + unfold join_on. simpl. rewrite String.eqb_refl. simpl. now apply Z.eqb_eq.
Qed.

(** The rows of the join are the readings of the host taken at the latest
    instant of their sensor, each once, in table order. *)
Lemma current_rows_filter (h : string) (all : list TemperatureReading) :
  filter (holds_all [ClientIdEq h])
    (flat_map (fun r => map (fun _ => r)
                          (filter (join_on r) (latest_per_sensor [ClientIdEq h] all)))
       all)
  = filter (is_latest h all) all.
Proof.
  rewrite (flat_map_ext _ (fun r => if existsb (join_on r)
                                        (latest_per_sensor [ClientIdEq h] all)
                                   then [r] else []))
    by (intros r; apply join_at_most_once, latest_per_sensor_keys).
  rewrite flat_map_if, filter_twice.
  apply filter_ext_in. intros r Hin.
  now apply joined_is_latest.
Qed.


Lemma NoDup_map_filter {A B C : Type} (f : A -> B) (g : A -> C) (p : A -> bool)
    (l : list A) :
  NoDup (map g l) ->
  (forall x y, In x l -> In y l -> p x = true -> p y = true ->
               f x = f y -> g x = g y) ->
  NoDup (map f (filter p l)).
Proof.
  induction l as [|x t IH]; simpl; intros Hnd Hfg; [constructor|].
  inversion Hnd as [|? ? Hx Ht]; subst.
  assert (IH' : NoDup (map f (filter p t))).
  { apply IH; [exact Ht|]. intros a b Ha Hb. apply Hfg; now right. }
  destruct (p x) eqn:Hp; [|exact IH'].
  simpl. constructor; [|exact IH'].
  intros Hin. apply in_map_iff in Hin as [y [Hfy Hy]].
  apply filter_In in Hy as [Hy Hpy].
  apply Hx. rewrite (Hfg x y); [now apply in_map | now left | now right | | | ]; auto.
Qed.



(** *** The host table under [SubmitTemperature] *)

Lemma find_map_same {A : Type} (p : A -> bool) (f : A -> A) (l : list A) :
  (forall x, p (f x) = p x) ->
  find p (map f l) = option_map f (find p l).
Proof.
  intros Hp. induction l as [|x t IH]; simpl; [reflexivity|].
  rewrite Hp. destruct (p x); [reflexivity | exact IH].
Qed.

Lemma find_app_some {A : Type} (p : A -> bool) (l l' : list A) (x : A) :
  find p l = Some x -> find p (l ++ l') = Some x.
Proof.
  induction l as [|y t IH]; simpl; [discriminate|].
  destruct (p y); [trivial | exact IH].
Qed.

Lemma find_app_none {A : Type} (p : A -> bool) (l l' : list A) :
  find p l = None -> find p (l ++ l') = find p l'.
Proof.
  induction l as [|y t IH]; simpl; [reflexivity|].
  destruct (p y); [discriminate | exact IH].
Qed.

Lemma seen_keeps (id : nat) (now : Time) (c : Client) :
  cClientID (seen id now c) = cClientID c
  /\ cFirstSeen (seen id now c) = cFirstSeen c
  /\ cID (seen id now c) = cID c
  /\ (cLastSeen (seen id now c) = cLastSeen c \/ cLastSeen (seen id now c) = now).
Proof.
  unfold seen. destruct (cID c =? id)%nat; simpl; auto.
Qed.

Lemma seen_pred (id : nat) (now : Time) (h : string) (c : Client) :
  (cClientID (seen id now c) =? h)%string = (cClientID c =? h)%string.
Proof. now rewrite (proj1 (seen_keeps id now c)). Qed.

(** The host of the reading is in the table afterwards, last seen at
    [now]. *)
Lemma touch_host_same (now : Time) (h : string) (cs : list Client) :
  Forall (fun c => cID c <> 0%nat) cs ->
  exists c, find (fun c => (cClientID c =? h)%string) (touch now h cs) = Some c
            /\ cLastSeen c = now
            /\ (find (fun c => (cClientID c =? h)%string) cs = None ->
                cFirstSeen c = zeroTime).
Proof.
  intros Hids. unfold touch.
  destruct (find _ cs) as [found|] eqn:Hfind.
  - assert (Hid : cID found <> 0%nat).
    { apply find_some in Hfind as [Hin _].
      rewrite Forall_forall in Hids. now apply Hids. }
    apply Nat.eqb_neq in Hid. rewrite Hid. simpl.
    rewrite find_map_same by (intros x; apply seen_pred). rewrite Hfind. simpl.
    eexists. split; [reflexivity|]. unfold seen. rewrite Nat.eqb_refl. simpl.
    split; [reflexivity | discriminate].
  - rewrite find_map_same by (intros x; apply seen_pred).
    rewrite (find_app_none _ _ _ Hfind). simpl. rewrite String.eqb_refl. simpl.
    eexists. split; [reflexivity|]. unfold seen. simpl. rewrite Nat.eqb_refl.
    simpl. auto.
Qed.

(** A host that is in the table stays, with the first sighting it had. *)
Lemma touch_host_kept (now : Time) (h h' : string) (cs : list Client) (c : Client) :
  find (fun c => (cClientID c =? h)%string) cs = Some c ->
  exists c',
    find (fun c => (cClientID c =? h)%string) (touch now h' cs) = Some c'
    /\ cFirstSeen c' = cFirstSeen c
    /\ (cLastSeen c' = cLastSeen c \/ cLastSeen c' = now).
Proof.
  intros Hfind. unfold touch.
  destruct (find (fun c0 => (cClientID c0 =? h')%string) cs) as [found|].
  - destruct (negb (cID found =? 0)%nat).
    + rewrite find_map_same by (intros x; apply seen_pred). rewrite Hfind. simpl.
      eexists. split; [reflexivity|].
      destruct (seen_keeps (cID found) now c) as [_ [H1 [_ H2]]]. auto.
    + exists c. auto.
  - rewrite find_map_same by (intros x; apply seen_pred).
    rewrite (find_app_some _ _ _ Hfind). simpl.
    eexists. split; [reflexivity|].
    match goal with |- context [seen ?i now c] =>
      destruct (seen_keeps i now c) as [_ [H1 [_ H2]]] end. auto.
Qed.

Lemma touch_settled (clock : nat -> Time) (k : nat) (h : string) (cs : list Client) :
  (forall j, zeroTime <= clock j) ->
  Forall (settled clock) cs ->
  Forall (settled clock) (touch (clock k) h cs).
Proof.
  intros Hclock Hcs.
  assert (Hseen : forall id l, Forall (settled clock) l ->
                               Forall (settled clock) (map (seen id (clock k)) l)).
  { intros id l Hl. apply Forall_map. eapply Forall_impl; [|exact Hl].
    intros c [H1 [H2 H3]]. unfold settled, seen.
    destruct (cID c =? id)%nat; simpl; auto. }
  unfold touch. destruct (find _ cs) as [found|].
  - destruct (negb (cID found =? 0)%nat); [now apply Hseen | exact Hcs].
  - apply Hseen. apply Forall_app. split; [exact Hcs|].
    constructor; [|constructor]. unfold settled, next_id. simpl. auto.
Qed.

Section SubmitFacts.

Variable clock : nat -> Time.
Variable faulty : nat -> bool.

(** The backend carries out every statement. *)
Hypothesis no_faults : forall k, faulty k = false.

Lemma FirstOrCreateSensor_ok (id : string) (sensor : Sensor) (w : World) :
  exists found w',
    FirstOrCreateSensor faulty id sensor w = (Ok found, w')
    /\ clients (store w') = clients (store w)
    /\ ticks w' = ticks w
    /\ (exists extra, sensors (store w') = sensors (store w) ++ extra).
Proof.
  unfold FirstOrCreateSensor, send. cbn. rewrite no_faults. cbn.
  destruct (find _ _) as [found|].
  - do 2 eexists. split; [reflexivity|]. cbn. repeat split.
    exists []. now rewrite app_nil_r.
  - rewrite no_faults. cbn. do 2 eexists. split; [reflexivity|]. cbn.
    repeat split. eexists; reflexivity.
Qed.

Lemma CreateReading_ok (r : TemperatureReading) (w : World) :
  exists row w',
    CreateReading clock faulty r w = (Ok row, w')
    /\ clients (store w') = clients (store w)
    /\ sensors (store w') = sensors (store w)
    /\ (ticks w <= ticks w')%nat.
Proof.
  unfold CreateReading, Now, send.
  destruct (rCreatedAt r =? zeroTime); cbn; rewrite no_faults; cbn;
    do 2 eexists; (split; [reflexivity|]); cbn; repeat split; lia.
Qed.

Ltac sensor_then_reading :=
  match goal with
  | |- context [FirstOrCreateSensor faulty ?i ?s ?w] =>
      let Hs := fresh "Hs" in
      destruct (FirstOrCreateSensor_ok i s w)
        as [? [? [Hs [? [? [? ?]]]]]]; rewrite Hs
  end;
  match goal with
  | |- context [CreateReading clock faulty ?r ?w] =>
      let Hr := fresh "Hr" in
      destruct (CreateReading_ok r w) as [? [? [Hr [? [? ?]]]]]; rewrite Hr
  end.

(** One reading, every statement going through: the host table is
    touched, the sensor table is at most extended, the clock is read. *)
Lemma submitReading_ok (reading : Proto.TemperatureReading) (w : World) :
  exists w',
    submitReading clock faulty reading w = (None, w')
    /\ clients (store w')
       = touch (clock (ticks w)) (Proto.ClientId reading) (clients (store w))
    /\ (ticks w < ticks w')%nat
    /\ (exists extra, sensors (store w') = sensors (store w) ++ extra).
Proof.
  unfold submitReading, Now, FirstOrCreateClient, UpdatesClient, send,
    with_store, touch.
  cbn -[FirstOrCreateSensor CreateReading]. rewrite !no_faults.
  cbn -[FirstOrCreateSensor CreateReading].
  destruct (find _ (clients (store w))) as [found|] eqn:Hfind;
    cbn -[FirstOrCreateSensor CreateReading].
  - destruct (cID found =? 0)%nat eqn:Hid;
      cbn -[FirstOrCreateSensor CreateReading]; rewrite ?no_faults;
      cbn -[FirstOrCreateSensor CreateReading];
      sensor_then_reading;
      eexists; (split; [reflexivity|]);
      cbn [store clients sensors ticks] in *;
      (split; [etransitivity; [eassumption|]; etransitivity; [eassumption|];
               reflexivity|]);
      (split; [lia|]);
      match goal with
      | H : sensors _ = _ ++ ?e |- _ => exists e; congruence
      end.
  - rewrite !no_faults. cbn -[FirstOrCreateSensor CreateReading].
    sensor_then_reading.
    eexists; (split; [reflexivity|]);
      cbn [store clients sensors ticks] in *.
    split; [|split; [lia|]].
    + etransitivity; [eassumption|]. etransitivity; [eassumption|].
      reflexivity.
    + match goal with
      | H : sensors _ = _ ++ ?e |- _ => exists e; congruence
      end.
Qed.

(** The loop over a batch: it completes; rows stay settled; a host in the
    table keeps its first sighting, and its last sighting is the one it
    had or a reading of the clock made during the batch; a host named in
    the batch is in the table afterwards, last seen at a reading of the
    clock made during the batch. *)
Lemma submitLoop_ok (readings : list Proto.TemperatureReading) :
  (forall j, zeroTime <= clock j) ->
  forall w,
    Forall (settled clock) (clients (store w)) ->
    exists w',
      submitLoop clock faulty readings w = (None, w')
      /\ (ticks w <= ticks w')%nat
      /\ Forall (settled clock) (clients (store w'))
      /\ (forall h c, host h (store w) = Some c ->
            exists c', host h (store w') = Some c'
                       /\ cFirstSeen c' = cFirstSeen c
                       /\ (cLastSeen c' = cLastSeen c
                           \/ exists k, (ticks w <= k < ticks w')%nat
                                        /\ cLastSeen c' = clock k))
      /\ (forall h, In h (map Proto.ClientId readings) ->
            exists c k, host h (store w') = Some c
                        /\ (ticks w <= k < ticks w')%nat
                        /\ cLastSeen c = clock k
                        /\ (host h (store w) = None -> cFirstSeen c = zeroTime)).
Proof.
  intros Hclock.
  induction readings as [|reading rest IH]; intros w Hw; simpl.
  - exists w. split; [reflexivity|]. split; [lia|]. split; [exact Hw|]. split.
    + intros h c Hc. exists c. auto.
    + intros h [].
  - destruct (submitReading_ok reading w) as [w1 [Hstep [Hcs [Ht _]]]].
    rewrite Hstep.
    assert (Hw1 : Forall (settled clock) (clients (store w1))).
    { rewrite Hcs. now apply touch_settled. }
    destruct (IH w1 Hw1) as [w' [Hloop [Ht' [Hw' [Hkept Hnamed]]]]].
    exists w'. split; [exact Hloop|]. split; [lia|]. split; [exact Hw'|].
    assert (Hkept1 : forall h c, host h (store w) = Some c ->
              exists c', host h (store w') = Some c'
                         /\ cFirstSeen c' = cFirstSeen c
                         /\ (cLastSeen c' = cLastSeen c
                             \/ exists k, (ticks w <= k < ticks w')%nat
                                          /\ cLastSeen c' = clock k)).
    { intros h c Hc. unfold host in *.
      destruct (touch_host_kept (clock (ticks w)) h (Proto.ClientId reading)
                  (clients (store w)) Hc) as [c1 [Hc1 [Hf1 Hl1]]].
      rewrite <- Hcs in Hc1.
      destruct (Hkept h c1 Hc1) as [c' [Hc' [Hf' Hl']]].
      exists c'. split; [exact Hc'|]. split; [congruence|].
      destruct Hl' as [Hl' | [k [Hk Hl']]].
      - destruct Hl1 as [Hl1 | Hl1]; [left; congruence|].
        right. exists (ticks w). split; [lia | congruence].
      - right. exists k. split; [lia | exact Hl']. }
    split; [exact Hkept1|].
    intros h [Hh | Hh].
    + assert (Hids : Forall (fun c => cID c <> 0%nat) (clients (store w))).
      { eapply Forall_impl; [|exact Hw]. intros c Hc. apply Hc. }
      destruct (touch_host_same (clock (ticks w)) h Hids) as [c1 [Hc1 [Hl1 Hz1]]].
      rewrite <- Hh, <- Hcs in Hc1.
      destruct (Hkept (Proto.ClientId reading) c1 Hc1) as [c' [Hc' [Hf' Hl']]].
      rewrite <- Hh. exists c'.
      destruct Hl' as [Hl' | [k [Hk Hl']]].
      * exists (ticks w). split; [exact Hc'|]. split; [lia|].
        split; [congruence|]. intros Hnone. rewrite Hf'. apply Hz1.
        rewrite <- Hh. exact Hnone.
      * exists k. split; [exact Hc'|]. split; [lia|]. split; [exact Hl'|].
        intros Hnone. rewrite Hf'. apply Hz1. rewrite <- Hh. exact Hnone.
    + destruct (Hnamed h Hh) as [c [k [Hc [Hk [Hl Hz]]]]].
      exists c, k. split; [exact Hc|]. split; [lia|]. split; [exact Hl|].
      intros Hnone.
      destruct (host h (store w1)) as [c1|] eqn:Hc1; [|now apply Hz].
      destruct (Hkept h c1 Hc1) as [c' [Hc' [Hf' _]]].
      assert (c' = c) by congruence. subst c'. rewrite Hf'.
      unfold host in Hc1, Hnone. rewrite Hcs in Hc1. unfold touch in Hc1.
      destruct (find (fun c0 => (cClientID c0 =? Proto.ClientId reading)%string)
                  (clients (store w))) as [found|] eqn:Hfound.
      * destruct (negb (cID found =? 0)%nat).
        -- rewrite find_map_same in Hc1 by (intros x; apply seen_pred).
           rewrite Hnone in Hc1. discriminate.
        -- congruence.
      * rewrite find_map_same in Hc1 by (intros x; apply seen_pred).
        rewrite (find_app_none _ _ _ Hnone) in Hc1. simpl in Hc1.
        destruct (Proto.ClientId reading =? h)%string; [|discriminate].
        simpl in Hc1. injection Hc1 as <-. unfold seen.
        destruct (_ =? _)%nat; reflexivity.
Qed.

(** A batch that is not empty, every statement going through. *)
Lemma SubmitTemperature_ok (req : Proto.SubmitTemperatureRequest) (w : World) :
  Proto.Readings req <> [] ->
  exists w1 resp,
    submitLoop clock faulty (Proto.Readings req) (sent w) = (None, w1)
    /\ SubmitTemperature clock faulty req w = (Ok resp, sent w1).
Proof.
  intros Hne. unfold SubmitTemperature, Transaction, send.
  destruct (Proto.Readings req) as [|r rs] eqn:Hrs; [congruence|].
  cbn -[submitLoop]. rewrite no_faults. cbn -[submitLoop]. fold (sent w).
  destruct (submitLoop clock faulty (r :: rs) (sent w)) as [[e|] w1] eqn:Hloop.
  - exfalso.
    assert (Hnever : forall l w0, fst (submitLoop clock faulty l w0) = None).
    { induction l as [|x l IHl]; intros w0; simpl; [reflexivity|].
      destruct (submitReading_ok x w0) as [w' [Hx _]]. rewrite Hx. apply IHl. }
    specialize (Hnever (r :: rs) (sent w)). rewrite Hloop in Hnever. discriminate.
  - rewrite no_faults. cbn. do 2 eexists. split; reflexivity.
Qed.

End SubmitFacts.

Lemma settled_ordered (clock : nat -> Time) (cs : list Client) :
  Forall (settled clock) cs -> Forall (fun c => cFirstSeen c <= cLastSeen c) cs.
Proof.
  intros H. eapply Forall_impl; [|exact H]. intros c Hc. apply Hc.
Qed.



(** On that scenario the host is last seen at the clock readings 1000 and
    1001, and its first sighting is stored as the zero time: the row is
    inserted with the field unset, and the branch that assigns it is taken
    for a key of zero only, which a stored row never has. *)
Example scenario_host_rows :
  host "h1" (store (snd (SubmitTemperature sample_clock no_fault first_batch
                           fresh_world)))
  = Some {| cID := 1; cClientID := "h1"; cFirstSeen := zeroTime;
            cLastSeen := 1000; cIsOnline := true |}
  /\ host "h1" (store (snd (SubmitTemperature sample_clock no_fault second_batch
                              (snd (SubmitTemperature sample_clock no_fault
                                      first_batch fresh_world)))))
     = Some {| cID := 1; cClientID := "h1"; cFirstSeen := zeroTime;
               cLastSeen := 1001; cIsOnline := true |}.
Proof. split; vm_compute; reflexivity. Qed.

(** The earlier copy of the method only looks the host up: the second
    batch leaves the last sighting where the first one put it. *)
Example earlier_submit_keeps_last_seen :
  option_map cLastSeen
    (host "h1" (store (snd (SubmitTemperature_v0 sample_clock no_fault second_batch
                              (snd (SubmitTemperature_v0 sample_clock no_fault
                                      first_batch fresh_world))))))
  = Some 1000.
Proof. vm_compute. reflexivity. Qed.

(** *** The sensor table under [SubmitTemperature] *)

Section SensorFacts.

Variable clock : nat -> Time.
Variable faulty : nat -> bool.
Hypothesis no_faults : forall k, faulty k = false.

Lemma submitLoop_sensors (readings : list Proto.TemperatureReading) (w : World) :
  exists w' extra,
    submitLoop clock faulty readings w = (None, w')
    /\ sensors (store w') = sensors (store w) ++ extra.
Proof.
  revert w. induction readings as [|reading rest IH]; intros w; simpl.
  - exists w, []. now rewrite app_nil_r.
  - destruct (@submitReading_ok clock faulty no_faults reading w)
      as [w1 [Hstep [_ [_ [e1 He1]]]]].
    rewrite Hstep. destruct (IH w1) as [w' [e2 [Hloop He2]]].
    exists w', (e1 ++ e2). split; [exact Hloop|].
    now rewrite He2, He1, app_assoc.
Qed.

(** A sensor that has a row keeps it as it is, whatever type and name the
    batch carries for it. *)
Lemma stored_sensor_is_never_rewritten (req : Proto.SubmitTemperatureRequest)
    (w : World) (sensorId : string) (s : Sensor) :
  Proto.Readings req <> [] ->
  find (fun x => (sSensorID x =? sensorId)%string) (sensors (store w)) = Some s ->
  find (fun x => (sSensorID x =? sensorId)%string)
    (sensors (store (snd (SubmitTemperature clock faulty req w)))) = Some s.
Proof.
  intros Hne Hs.
  destruct (@SubmitTemperature_ok clock faulty no_faults req w Hne)
    as [w1 [resp [Hloop Hsub]]].
  destruct (submitLoop_sensors (Proto.Readings req) (sent w))
    as [w1' [extra [Hloop' Hext]]].
  assert (w1' = w1) by congruence. subst w1'.
  rewrite Hsub. cbn [snd sent store]. rewrite Hext.
  now apply find_app_some.
Qed.

End SensorFacts.

(** C4 fails on the code: the sensor of the scenario is first reported as
    a CPU sensor named Package; a later batch that reports it as a GPU
    sensor named Edge is accepted, and the stored record still says CPU and
    Package.  Both copies of the method behave so. *)
Theorem sensor_record_keeps_first_values :
  let relabelled := batch [wire "hwmon0_1" "h1" 61 "GPU" "Edge" 530] in
  let w1 := snd (SubmitTemperature sample_clock no_fault first_batch fresh_world) in
  let w1' := snd (SubmitTemperature_v0 sample_clock no_fault first_batch fresh_world) in
  is_ok (fst (SubmitTemperature sample_clock no_fault relabelled w1)) = true
  /\ sensors (store (snd (SubmitTemperature sample_clock no_fault relabelled w1)))
     = [ {| sID := 1; sSensorID := "hwmon0_1"; sClientID := "h1";
            sSensorType := "CPU"; sSensorName := "Package" |} ]
  /\ is_ok (fst (SubmitTemperature_v0 sample_clock no_fault relabelled w1')) = true
  /\ sensors (store (snd (SubmitTemperature_v0 sample_clock no_fault relabelled w1')))
     = [ {| sID := 1; sSensorID := "hwmon0_1"; sClientID := "h1";
            sSensorType := "CPU"; sSensorName := "Package" |} ].
Proof. repeat split; vm_compute; reflexivity. Qed.

(** *** The statistics *)

(** C8 fails on the code: with two sensors in the window and no sensor
    named in the request, the second sensor has one reading of 40 degrees
    but is reported with a count of zero and zero aggregates: the loop adds
    its condition on the sensor to the statement that already carries the
    condition on the first sensor.  Named in the request, the same sensor
    is reported with its reading. *)
Theorem stats_of_later_sensors_are_empty :
  exists stats,
    fst (GetTemperatureStats no_fault (stats_for "") two_sensor_world) = Ok stats
    /\ map fst stats = ["hwmon0_1"; "hwmon1_1"]
    /\ option_map Proto.ReadingCount (map_get stats "hwmon0_1") = Some 1
    /\ option_map Proto.ReadingCount (map_get stats "hwmon1_1") = Some 0
    /\ option_map Proto.MaxTemperature (map_get stats "hwmon1_1") = Some 0%Q
    /\ map rTemperatureCelsius
         (sensor_readings (stats_for "") (store two_sensor_world) "hwmon1_1")
       = [40%Q]
    /\ (exists named,
           fst (GetTemperatureStats no_fault (stats_for "hwmon1_1")
                  two_sensor_world) = Ok named
           /\ option_map Proto.ReadingCount (map_get named "hwmon1_1") = Some 1
           /\ option_map Proto.MaxTemperature (map_get named "hwmon1_1")
              = Some 40%Q).
Proof.
  eexists. split; [vm_compute; reflexivity|].
  repeat split.
  eexists. split; [vm_compute; reflexivity|]. split; reflexivity.
Qed.

Lemma holds_all_app (cs cs' : list Cond) (r : TemperatureReading) :
  holds_all (cs ++ cs') r = holds_all cs r && holds_all cs' r.
Proof. unfold holds_all. apply forallb_app. Qed.

Lemma holds_window (req : Proto.GetTemperatureStatsRequest) (r : TemperatureReading) :
  holds_all (window_conds req) r = in_window req r.
Proof.
  unfold window_conds, in_window. rewrite !holds_all_app. unfold holds_all.
  destruct (Proto.stats_ClientId req =? "")%string,
    (Proto.stats_StartTime req), (Proto.stats_EndTime req); simpl;
    rewrite ?andb_true_r, ?andb_assoc; reflexivity.
Qed.

Section StatsFacts.

Variable faulty : nat -> bool.
Hypothesis no_faults : forall k, faulty k = false.

(** The loop, started on a handle whose statement is shared by all its
    iterations. *)
Lemma statsLoop_accumulates (req : Proto.GetTemperatureStatsRequest)
    (sensorIds : list string) :
  forall (root st : Statement) (w : World)
         (sensorStats : list (string * Proto.TemperatureStats)),
    JoinClauses st = [] -> OrderCreatedDesc st = false -> LimitRows st = None ->
    fst (statsLoop faulty {| clone := 0; stmt := 1 |} req sensorIds sensorStats
           {| world := w; heap := [root; st] |})
    = Ok (accumulated_stats req (temperature_readings (store w)) (Wheres st)
            sensorIds sensorStats).
Proof.
  induction sensorIds as [|sensorId rest IH];
    intros root st w sensorStats Hj Ho Hl; [reflexivity|].
  cbn [statsLoop accumulated_stats].
  unfold bind, Where, Select, Scan, chain, getInstance, bind, ret, sendG, send.
  cbn. rewrite no_faults. cbn.
  match goal with
  | |- fst (statsLoop _ _ _ _ ?acc {| world := ?w'; heap := [root; ?st'] |}) = _ =>
      rewrite (IH root st' w' acc Hj Ho Hl)
  end.
  cbn. unfold select_rows. cbn. rewrite Hj, Ho, Hl. cbn. reflexivity.
Qed.

(** Without a sensor in the request: the sensors of the window are
    listed, then aggregated one after the other on the shared statement. *)
Lemma GetTemperatureStats_unnamed (req : Proto.GetTemperatureStatsRequest)
    (w : World) :
  Proto.stats_SensorId req = "" ->
  fst (GetTemperatureStats faulty req w)
  = Ok (accumulated_stats req (temperature_readings (store w)) (window_conds req)
          (dedup (map rSensorID (window req (store w)))) []).
Proof.
  intros Hs. unfold GetTemperatureStats, run, window, window_conds.
  rewrite Hs.
  rewrite <- (filter_ext _ _ (holds_window req)). unfold window_conds.
  destruct (Proto.stats_ClientId req =? "")%string,
    (Proto.stats_StartTime req), (Proto.stats_EndTime req);
    cbn -[statsLoop]; unfold Pluck, bind, sendG, send; cbn -[statsLoop];
    rewrite no_faults; cbn -[statsLoop];
    match goal with
    | |- fst (let (a, g) :=
                statsLoop _ _ ?r ?ids ?acc {| world := ?w'; heap := [?root; ?st] |}
              in _) = _ =>
        pose proof (@statsLoop_accumulates r ids root st w' acc
                      eq_refl eq_refl eq_refl) as Hloop;
        destruct (statsLoop faulty {| clone := 0; stmt := 1 |} r ids acc
                    {| world := w'; heap := [root; st] |}) as [a g]
    end;
    exact Hloop.
Qed.

Lemma map_get_set_same (m : list (string * Proto.TemperatureStats)) (k : string)
    (v : Proto.TemperatureStats) :
  map_get (map_set m k v) k = Some v.
Proof.
  induction m as [|[k' v'] t IH]; simpl.
  - now rewrite String.eqb_refl.
  - destruct (k' =? k)%string eqn:Hk; simpl.
    + now rewrite String.eqb_refl.
    + now rewrite Hk.
Qed.

Lemma map_get_set_other (m : list (string * Proto.TemperatureStats))
    (k k' : string) (v : Proto.TemperatureStats) :
  k' <> k -> map_get (map_set m k' v) k = map_get m k.
Proof.
  intros Hne. apply String.eqb_neq in Hne.
  induction m as [|[k0 v0] t IH]; simpl.
  - now rewrite Hne.
  - destruct (k0 =? k')%string eqn:Hk0; simpl.
    + apply String.eqb_eq in Hk0. subst k0. now rewrite Hne.
    + destruct (k0 =? k)%string; [reflexivity | exact IH].
Qed.

Lemma accumulated_stats_untouched (req : Proto.GetTemperatureStatsRequest)
    (all : list TemperatureReading) (sensorIds : list string) (k : string) :
  ~ In k sensorIds ->
  forall conds acc,
    map_get (accumulated_stats req all conds sensorIds acc) k = map_get acc k.
Proof.
  induction sensorIds as [|id rest IH]; intros Hk conds acc; simpl; [reflexivity|].
  rewrite IH by (intros H; apply Hk; now right).
  apply map_get_set_other. intros ->. apply Hk. now left.
Qed.

(** A sensor aggregated after a condition on another sensor has entered
    the statement is aggregated over no row. *)
Lemma accumulated_stats_conflict (req : Proto.GetTemperatureStatsRequest)
    (all : list TemperatureReading) (sensorIds : list string) (k other : string) :
  NoDup sensorIds -> In k sensorIds -> other <> k ->
  forall conds acc,
    In (SensorIdEq other) conds ->
    map_get (accumulated_stats req all conds sensorIds acc) k
    = Some (stats_of req (aggregate [])).
Proof.
  intros Hnd Hk Hne.
  induction sensorIds as [|id rest IH]; intros conds acc Hc; [destruct Hk|].
  inversion Hnd as [|? ? Hid Hrest]; subst. simpl.
  destruct Hk as [-> | Hk].
  - rewrite accumulated_stats_untouched by exact Hid.
    rewrite map_get_set_same. do 2 f_equal.
    assert (Hnone : forall l, filter (holds_all (conds ++ [SensorIdEq k])) l = []).
    { induction l as [|r l IHl]; simpl; [reflexivity|].
      rewrite IHl, holds_all_app.
      destruct (holds_all conds r) eqn:Hh; [|reflexivity].
      unfold holds_all in Hh. rewrite forallb_forall in Hh.
      specialize (Hh _ Hc). simpl in Hh. apply String.eqb_eq in Hh.
      unfold holds_all. simpl. rewrite Hh.
      apply String.eqb_neq in Hne. now rewrite Hne. }
    now rewrite Hnone.
  - apply IH; [exact Hrest | exact Hk|]. apply in_or_app. now left.
Qed.

(** In general: when no sensor is named and every statement goes
    through, the first sensor listed gets the aggregate of its readings in
    the window, and every other sensor of the window is reported with the
    aggregate of no reading, a count of zero. *)
Lemma unnamed_stats_only_first_sensor (req : Proto.GetTemperatureStatsRequest)
    (w : World) :
  Proto.stats_SensorId req = "" ->
  exists stats,
    fst (GetTemperatureStats faulty req w) = Ok stats
    /\ (forall first others,
           dedup (map rSensorID (window req (store w))) = first :: others ->
           map_get stats first
           = Some (stats_of req (aggregate (sensor_readings req (store w) first)))
           /\ (forall k, In k others ->
                         option_map Proto.ReadingCount (map_get stats k) = Some 0)).
Proof.
  intros Hs. eexists. split; [now apply GetTemperatureStats_unnamed|].
  intros first others Hids. rewrite Hids.
  pose proof (dedup_NoDup (map rSensorID (window req (store w)))) as Hnd.
  rewrite Hids in Hnd. inversion Hnd as [|? ? Hfirst Hothers]; subst.
  simpl. split.
  - rewrite accumulated_stats_untouched by exact Hfirst. simpl.
    rewrite String.eqb_refl. do 3 f_equal.
    unfold sensor_readings, window. rewrite filter_twice.
    apply filter_ext. intros r. rewrite holds_all_app, holds_window.
    unfold holds_all. simpl. now rewrite andb_true_r, andb_comm.
  - intros k Hk.
    rewrite (@accumulated_stats_conflict req _ others k first Hothers Hk).
    + reflexivity.
    + intros ->. contradiction.
    + apply in_or_app. right. now left.
Qed.

(** With the sensor named, the one aggregate is that of its readings in
    the window. *)
Lemma named_stats_are_the_aggregate (req : Proto.GetTemperatureStatsRequest)
    (w : World) :
  Proto.stats_SensorId req <> "" ->
  fst (GetTemperatureStats faulty req w)
  = Ok [(Proto.stats_SensorId req,
         stats_of req
           (aggregate (sensor_readings req (store w) (Proto.stats_SensorId req))))].
Proof.
  intros Hs. apply String.eqb_neq in Hs.
  unfold GetTemperatureStats, run. rewrite Hs.
  assert (Hrows : forall cs,
             cs = window_conds req ->
             filter (holds_all (cs ++ [SensorIdEq (Proto.stats_SensorId req)]))
               (temperature_readings (store w))
             = sensor_readings req (store w) (Proto.stats_SensorId req)).
  { intros cs ->. unfold sensor_readings, window. rewrite filter_twice.
    apply filter_ext. intros r. rewrite holds_all_app, holds_window.
    unfold holds_all. simpl. now rewrite andb_true_r, andb_comm. }
  unfold window_conds in Hrows.
  destruct (Proto.stats_ClientId req =? "")%string,
    (Proto.stats_StartTime req), (Proto.stats_EndTime req);
    cbn; unfold Scan, bind, sendG, send; cbn; rewrite no_faults; cbn;
    unfold select_rows; cbn;
    (rewrite <- (Hrows _ eq_refl)); reflexivity.
Qed.

End StatsFacts.

(* ================================================================== *)
(** * Part III: further properties                                     *)
(* ================================================================== *)

(** ** Batches, whatever the backend does *)

(** A reading that is processed without error adds one row, the one that
    carries it. *)
Lemma submitReading_appends (clock : nat -> Time) (faulty : nat -> bool)
    (reading : Proto.TemperatureReading) (w w' : World) :
  submitReading clock faulty reading w = (None, w') ->
  exists row,
    temperature_readings (store w') = temperature_readings (store w) ++ [row]
    /\ stored_as reading row.
Proof.
  unfold submitReading, Now, FirstOrCreateClient, UpdatesClient,
    FirstOrCreateSensor, CreateReading, send, with_store. cbn.
  repeat match goal with
         | |- context [if ?b then _ else _] => destruct b eqn:?; cbn
         | |- context [match find ?p ?l with _ => _ end] =>
             destruct (find p l) eqn:?; cbn
         end;
    intros H; try discriminate H; injection H as <-; cbn;
    eexists; (split; [reflexivity|]); unfold stored_as; cbn;
    repeat split; intros Hz; try reflexivity;
    match goal with
    | Hzero : (_ =? zeroTime) = true |- _ =>
        apply Z.eqb_eq in Hzero; contradiction
    end.
Qed.

Lemma submitLoop_appends (clock : nat -> Time) (faulty : nat -> bool)
    (readings : list Proto.TemperatureReading) :
  forall w w',
    submitLoop clock faulty readings w = (None, w') ->
    exists rows,
      temperature_readings (store w') = temperature_readings (store w) ++ rows
      /\ Forall2 stored_as readings rows.
Proof.
  induction readings as [|reading rest IH]; intros w w'; simpl.
  - intros H. injection H as <-. exists []. split; [now rewrite app_nil_r | constructor].
  - destruct (submitReading clock faulty reading w) as [[e|] w1] eqn:Hstep;
      [discriminate|].
    intros Hloop.
    destruct (submitReading_appends _ _ _ _ Hstep) as [row [Hrow Has]].
    destruct (IH w1 w' Hloop) as [rows [Hrows Hall]].
    exists (row :: rows). split; [|now constructor].
    rewrite Hrows, Hrow, <- app_assoc. reflexivity.
Qed.

(** The ways a call of [SubmitTemperature] ends. *)
Lemma submit_outcomes :
  forall (clock : nat -> Time) (faulty : nat -> bool)
         (req : Proto.SubmitTemperatureRequest) (w : World),
    match SubmitTemperature clock faulty req w with
    | (Err InvalidArgument, w') => Proto.Readings req = [] /\ w' = w
    | (Err Internal, w') =>
        Proto.Readings req <> [] /\ store w' = store w
        /\ (executed w < executed w')%nat
    | (Ok resp, w') =>
        Proto.Readings req <> [] /\ Proto.Success resp = true
        /\ (executed w < executed w')%nat
    end.
Proof.
  intros clock faulty req w. unfold SubmitTemperature.
  destruct (Proto.Readings req) as [|r rs] eqn:Hrs; [simpl; auto|].
  cbn [List.length Nat.eqb].
  assert (Hmono : forall l w0,
             (executed w0 <= executed (snd (submitLoop clock faulty l w0)))%nat).
  { induction l as [|x l IHl]; intros w0; simpl; [lia|].
    assert (Hstep : (executed w0
                     <= executed (snd (submitReading clock faulty x w0)))%nat).
    { unfold submitReading, Now, FirstOrCreateClient, UpdatesClient,
        FirstOrCreateSensor, CreateReading, send, with_store. cbn.
      repeat match goal with
             | |- context [if ?b then _ else _] => destruct b eqn:?; cbn
             | |- context [match find ?p ?l with _ => _ end] =>
                 destruct (find p l) eqn:?; cbn
             end; lia. }
    destruct (submitReading clock faulty x w0) as [[e|] w1]; simpl in *; [lia|].
    specialize (IHl w1). lia. }
  unfold Transaction, send.
  destruct (faulty (executed w)); cbn -[submitLoop];
    [split; [discriminate | split; [reflexivity | lia]]|].
  match goal with
  | |- context [submitLoop clock faulty (r :: rs) ?w0] =>
      specialize (Hmono (r :: rs) w0);
      destruct (submitLoop clock faulty (r :: rs) w0) as [[e|] w2]
  end; cbn -[submitLoop] in *.
  - split; [discriminate | split; [reflexivity | lia]].
  - destruct (faulty (executed w2)); cbn;
      (split; [discriminate | split; [reflexivity | lia]]).
Qed.

(** X1: whatever the backend does, a call of [SubmitTemperature] ends in
    one of three ways: an empty request is refused with InvalidArgument and
    the world is untouched; a request that fails is answered with Internal
    and the store is the one before the call; a request that is accepted is
    answered with success. *)
Theorem submit_all_or_nothing :
  forall (clock : nat -> Time) (faulty : nat -> bool)
         (req : Proto.SubmitTemperatureRequest) (w : World),
    match SubmitTemperature clock faulty req w with
    | (Err InvalidArgument, w') => Proto.Readings req = [] /\ w' = w
    | (Err Internal, w') =>
        Proto.Readings req <> [] /\ store w' = store w
        /\ (executed w < executed w')%nat
    | (Ok resp, w') =>
        Proto.Readings req <> [] /\ Proto.Success resp = true
        /\ (executed w < executed w')%nat
    end.
Proof. exact submit_outcomes. Qed.

(** The rows an accepted batch has added. *)
Lemma accepted_rows (clock : nat -> Time) (faulty : nat -> bool)
    (req : Proto.SubmitTemperatureRequest) (w w' : World)
    (resp : Proto.SubmitTemperatureResponse) :
  SubmitTemperature clock faulty req w = (Ok resp, w') ->
  exists rows,
    temperature_readings (store w')
    = temperature_readings (store w) ++ rows
    /\ Forall2 stored_as (Proto.Readings req) rows.
Proof.
  unfold SubmitTemperature.
  destruct (List.length (Proto.Readings req) =? 0)%nat; [discriminate|].
  unfold Transaction, send.
  destruct (faulty (executed w)); cbn -[submitLoop]; [discriminate|].
  match goal with
  | |- context [submitLoop clock faulty ?l ?w0] =>
      destruct (submitLoop clock faulty l w0) as [[e|] w2] eqn:Hloop
  end; cbn -[submitLoop]; [discriminate|].
  destruct (faulty (executed w2)); cbn; [discriminate|].
  intros H. injection H as _ <-.
  destruct (submitLoop_appends _ _ _ _ Hloop) as [rows [Hrows Hall]].
  exists rows. split; [exact Hrows | exact Hall].
Qed.

(** X2: a batch that is accepted has added to the readings, whatever else
    the backend did, one row for each of its readings, in the order of the
    batch, each carrying the identifiers, value, type and name of its
    reading and the instant the agent gave it; the rows that were there are
    not touched. *)
Theorem accepted_batch_is_appended :
  forall (clock : nat -> Time) (faulty : nat -> bool)
         (req : Proto.SubmitTemperatureRequest) (w w' : World)
         (resp : Proto.SubmitTemperatureResponse),
    SubmitTemperature clock faulty req w = (Ok resp, w') ->
    exists rows,
      temperature_readings (store w')
      = temperature_readings (store w) ++ rows
      /\ Forall2 stored_as (Proto.Readings req) rows.
Proof.
  intros clock faulty req w w' resp. apply accepted_rows.
Qed.

Lemma accepted_batch_is_appended_witness :
  exists rows,
    temperature_readings
      (store (snd (SubmitTemperature sample_clock no_fault second_batch
                     (snd (SubmitTemperature sample_clock no_fault first_batch
                             fresh_world)))))
    = temperature_readings
        (store (snd (SubmitTemperature sample_clock no_fault first_batch
                       fresh_world))) ++ rows
    /\ Forall2 stored_as (Proto.Readings second_batch) rows.
Proof.
  eapply (@accepted_batch_is_appended sample_clock no_fault second_batch).
  vm_compute. reflexivity.
Defined.

(** ** Keys *)

Lemma next_id_fresh (ids : list nat) :
  ~ In (next_id ids) ids /\ next_id ids <> 0%nat.
Proof.
  unfold next_id. split; [|discriminate].
  intros Hin.
  assert (Hle : Forall (fun k => (k <= list_max ids)%nat) ids)
    by (apply list_max_le; lia).
  rewrite Forall_forall in Hle. specialize (Hle _ Hin). lia.
Qed.

Lemma NoDup_snoc {A : Type} (l : list A) (x : A) :
  NoDup l -> ~ In x l -> NoDup (l ++ [x]).
Proof.
  intros Hl Hx. apply NoDup_app; [exact Hl | repeat constructor; intros [] |].
  intros a Ha [<- | []]. contradiction.
Qed.

Lemma find_none_key {A : Type} (key : A -> string) (id : string) (l : list A) :
  find (fun x => (key x =? id)%string) l = None -> ~ In id (map key l).
Proof.
  intros Hnone Hin. apply in_map_iff in Hin as [x [Hk Hx]].
  pose proof (find_none _ _ Hnone x Hx) as H. simpl in H.
  rewrite Hk, String.eqb_refl in H. discriminate.
Qed.

Lemma snoc_keys {A : Type} (key : A -> nat) (l : list A) (x : A) :
  key x = next_id (map key l) ->
  NoDup (map key l) -> ~ In 0%nat (map key l) ->
  NoDup (map key (l ++ [x])) /\ ~ In 0%nat (map key (l ++ [x])).
Proof.
  intros Hx Hnd Hz. rewrite map_app. simpl.
  destruct (next_id_fresh (map key l)) as [Hfresh Hnz]. split.
  - apply NoDup_snoc; [exact Hnd | now rewrite Hx].
  - intros Hin. apply in_app_or in Hin as [Hin | [Hin | []]]; [contradiction|].
    rewrite Hx in Hin. congruence.
Qed.

Section KeyFacts.

Variable clock : nat -> Time.
Variable faulty : nat -> bool.

Lemma FirstOrCreateClient_keys (id : string) (client : Client) (w : World) :
  cClientID client = id ->
  keys_ok (store w) ->
  keys_ok (store (snd (FirstOrCreateClient faulty id client w))).
Proof.
  intros Hid Hk. unfold FirstOrCreateClient, send. cbn.
  destruct (faulty (executed w)); cbn; [exact Hk|].
  destruct (find _ _) as [found|] eqn:Hfind; cbn; [exact Hk|].
  destruct (faulty (S (executed w))); cbn; [exact Hk|].
  destruct Hk as [H1 [H2 [H3 H4]]]. unfold keys_ok. cbn.
  destruct (@snoc_keys _ cID (clients (store w))
              {| cID := next_id (map cID (clients (store w)));
                 cClientID := cClientID client;
                 cFirstSeen := cFirstSeen client;
                 cLastSeen := cLastSeen client;
                 cIsOnline := cIsOnline client |} eq_refl H1 H2) as [Ha Hb].
  split; [exact Ha|]. split; [exact Hb|]. split; [|exact H4].
  rewrite map_app. simpl. apply NoDup_snoc; [exact H3|].
  rewrite Hid. now apply find_none_key.
Qed.

Lemma UpdatesClient_keys (client : Client) (now : Time) (online : bool) (w : World) :
  keys_ok (store w) ->
  keys_ok (store (snd (UpdatesClient faulty client now online w))).
Proof.
  intros Hk. unfold UpdatesClient, send. cbn.
  destruct (faulty (executed w)); cbn; [exact Hk|].
  unfold keys_ok in *. cbn. rewrite !map_map.
  rewrite (map_ext (fun x => cID (if (cID x =? cID client)%nat then _ else x)) cID)
    by (intros c; destruct (cID c =? cID client)%nat; reflexivity).
  rewrite (map_ext (fun x => cClientID (if (cID x =? cID client)%nat then _ else x))
             cClientID)
    by (intros c; destruct (cID c =? cID client)%nat; reflexivity).
  exact Hk.
Qed.

Lemma FirstOrCreateSensor_keys (id : string) (sensor : Sensor) (w : World) :
  sSensorID sensor = id ->
  keys_ok (store w) ->
  keys_ok (store (snd (FirstOrCreateSensor faulty id sensor w))).
Proof.
  intros Hid Hk. unfold FirstOrCreateSensor, send. cbn.
  destruct (faulty (executed w)); cbn; [exact Hk|].
  destruct (find _ _) as [found|] eqn:Hfind; cbn; [exact Hk|].
  destruct (faulty (S (executed w))); cbn; [exact Hk|].
  destruct Hk as [H1 [H2 [H3 [H4 [H5 [H6 H7]]]]]]. unfold keys_ok. cbn.
  destruct (@snoc_keys _ sID (sensors (store w))
              {| sID := next_id (map sID (sensors (store w)));
                 sSensorID := sSensorID sensor;
                 sClientID := sClientID sensor;
                 sSensorType := sSensorType sensor;
                 sSensorName := sSensorName sensor |} eq_refl H4 H5) as [Ha Hb].
  repeat (split; [assumption|]). split; [|exact H7].
  rewrite map_app. simpl. apply NoDup_snoc; [exact H6|].
  rewrite Hid. now apply find_none_key.
Qed.

Lemma CreateReading_keys (r : TemperatureReading) (w : World) :
  keys_ok (store w) ->
  keys_ok (store (snd (CreateReading clock faulty r w))).
Proof.
  intros Hk. unfold CreateReading, Now, send.
  destruct (rCreatedAt r =? zeroTime); cbn;
    (destruct (faulty (executed w)); cbn; [exact Hk|]);
    destruct Hk as [H1 [H2 [H3 [H4 [H5 [H6 [H7 H8]]]]]]]; unfold keys_ok; cbn;
    repeat (split; [assumption|]);
    match goal with
    | |- NoDup (map rID (_ ++ [?row])) /\ _ =>
        exact (@snoc_keys _ rID (temperature_readings (store w)) row eq_refl H7 H8)
    end.
Qed.

Lemma submitReading_keys (reading : Proto.TemperatureReading) (w : World) :
  keys_ok (store w) ->
  keys_ok (store (snd (submitReading clock faulty reading w))).
Proof.
  intros Hk. unfold submitReading, Now.
  match goal with
  | |- context [FirstOrCreateClient faulty ?i ?c ?w0] =>
      pose proof (@FirstOrCreateClient_keys i c w0 eq_refl Hk) as H1;
      destruct (FirstOrCreateClient faulty i c w0) as [[client|e] w1]
  end; cbn [snd] in *; [|exact H1].
  assert (H2 : keys_ok
                 (store (snd (if negb (cID client =? 0)%nat
                              then (client,
                                    snd (UpdatesClient faulty client
                                           (clock (ticks w)) true w1))
                              else ({| cID := cID client;
                                       cClientID := cClientID client;
                                       cFirstSeen := clock (ticks w);
                                       cLastSeen := cLastSeen client;
                                       cIsOnline := cIsOnline client |}, w1))))).
  { destruct (negb (cID client =? 0)%nat); cbn [snd];
      [now apply UpdatesClient_keys | exact H1]. }
  destruct (if negb (cID client =? 0)%nat then _ else _) as [client' w2].
  cbn [snd] in H2.
  match goal with
  | |- context [FirstOrCreateSensor faulty ?i ?s ?w0] =>
      pose proof (@FirstOrCreateSensor_keys i s w0 eq_refl H2) as H3;
      destruct (FirstOrCreateSensor faulty i s w0) as [[sensor|e] w3]
  end; cbn [snd] in *; [|exact H3].
  match goal with
  | |- context [CreateReading clock faulty ?r ?w0] =>
      pose proof (@CreateReading_keys r w0 H3) as H4;
      destruct (CreateReading clock faulty r w0) as [[row|e] w4]
  end; cbn [snd] in *; exact H4.
Qed.

Lemma submitLoop_keys (readings : list Proto.TemperatureReading) :
  forall w, keys_ok (store w) ->
            keys_ok (store (snd (submitLoop clock faulty readings w))).
Proof.
  induction readings as [|reading rest IH]; intros w Hk; simpl; [exact Hk|].
  pose proof (submitReading_keys reading w Hk) as H1.
  destruct (submitReading clock faulty reading w) as [[e|] w1]; cbn [snd] in *;
    [exact H1 | now apply IH].
Qed.

End KeyFacts.

(** X3: [SubmitTemperature] keeps the keys of the store in order, whatever
    the batch holds and whatever the backend does: primary keys stay
    distinct and different from zero, and there is never a second host row
    for a [client_id] nor a second sensor row for a [sensor_id]. *)
Theorem submit_keeps_keys :
  forall (clock : nat -> Time) (faulty : nat -> bool)
         (req : Proto.SubmitTemperatureRequest) (w : World),
    keys_ok (store w) ->
    keys_ok (store (snd (SubmitTemperature clock faulty req w))).
Proof.
  intros clock faulty req w Hk. unfold SubmitTemperature.
  destruct (List.length (Proto.Readings req) =? 0)%nat; [exact Hk|].
  unfold Transaction, send.
  destruct (faulty (executed w)); cbn -[submitLoop]; [exact Hk|].
  match goal with
  | |- context [submitLoop clock faulty ?l ?w0] =>
      pose proof (@submitLoop_keys clock faulty l w0 Hk) as Hloop;
      destruct (submitLoop clock faulty l w0) as [[e|] w2]
  end; cbn -[submitLoop] in *; [exact Hk|].
  destruct (faulty (executed w2)); cbn; [exact Hk | exact Hloop].
Qed.

Lemma submit_keeps_keys_witness :
  keys_ok (store (snd (SubmitTemperature sample_clock no_fault first_batch
                         fresh_world))).
Proof.
  apply (@submit_keeps_keys sample_clock no_fault first_batch fresh_world).
  unfold keys_ok. simpl. repeat split; try constructor; intros [].
Defined.

(** ** Queries never write *)

Section QuietFacts.

Variable faulty : nat -> bool.

Lemma quiet_ret {A : Type} (a : A) : quiet (ret a).
Proof. intros g. split; reflexivity. Qed.

Lemma quiet_bind {A B : Type} (m : G A) (k : A -> G B) :
  quiet m -> (forall a, quiet (k a)) -> quiet (bind m k).
Proof.
  intros Hm Hk g. unfold bind. specialize (Hm g).
  destruct (m g) as [a g1]. specialize (Hk a g1). cbn [snd] in *.
  destruct Hm as [Hm1 Hm2], Hk as [Hk1 Hk2]. split; congruence.
Qed.

Lemma quiet_getInstance (db : DB) : quiet (getInstance db).
Proof.
  intros g. unfold getInstance, alloc, ret.
  destruct (clone db) as [|[|n]]; split; reflexivity.
Qed.

Lemma quiet_chain (db : DB) (f : Statement -> Statement) : quiet (chain db f).
Proof.
  unfold chain. apply quiet_bind; [apply quiet_getInstance|].
  intros tx g. split; reflexivity.
Qed.

Lemma quiet_sendG : quiet (sendG faulty).
Proof. intros g. unfold sendG, send. split; reflexivity. Qed.

Lemma quiet_Find (db : DB) : quiet (Find faulty db).
Proof.
  unfold Find. apply quiet_bind; [apply quiet_getInstance|]. intros tx.
  apply quiet_bind; [apply quiet_sendG|]. intros ok g.
  destruct (negb ok); split; reflexivity.
Qed.

Lemma quiet_Pluck (db : DB) : quiet (Pluck faulty db).
Proof.
  unfold Pluck. apply quiet_bind; [apply quiet_getInstance|]. intros tx.
  apply quiet_bind; [apply quiet_sendG|]. intros ok g.
  destruct (negb ok); split; reflexivity.
Qed.

Lemma quiet_Scan (db : DB) : quiet (Scan faulty db).
Proof.
  unfold Scan. apply quiet_bind; [apply quiet_getInstance|]. intros tx.
  apply quiet_bind; [apply quiet_sendG|]. intros ok g.
  destruct (negb ok); split; reflexivity.
Qed.

Ltac quiet_steps :=
  repeat first
    [ apply quiet_ret
    | apply quiet_chain
    | apply quiet_Find
    | apply quiet_Pluck
    | apply quiet_Scan
    | apply quiet_bind; [|intros ?]
    | match goal with
      | |- quiet (if ?b then _ else _) => destruct b
      | |- quiet (match ?x with _ => _ end) => destruct x
      end ].

Lemma quiet_statsLoop (baseQuery : DB) (req : Proto.GetTemperatureStatsRequest)
    (sensorIds : list string) :
  forall sensorStats, quiet (statsLoop faulty baseQuery req sensorIds sensorStats).
Proof.
  induction sensorIds as [|sensorId rest IH]; intros sensorStats;
    cbn [statsLoop]; [apply quiet_ret|].
  unfold Where, Select. quiet_steps. apply IH.
Qed.

Lemma quiet_run {A : Type} (m : G A) (w : World) :
  quiet m ->
  store (snd (run m w)) = store w /\ ticks (snd (run m w)) = ticks w.
Proof.
  intros Hm. unfold run. specialize (Hm (enter w)).
  destruct (m (enter w)) as [a g]. exact Hm.
Qed.

Lemma GetTemperatureHistory_quiet (req : Proto.GetTemperatureHistoryRequest)
    (w : World) :
  store (snd (GetTemperatureHistory faulty req w)) = store w
  /\ ticks (snd (GetTemperatureHistory faulty req w)) = ticks w.
Proof.
  unfold GetTemperatureHistory. apply quiet_run.
  unfold Model, Where, Order, Limit. quiet_steps.
Qed.

Lemma GetCurrentTemperatures_quiet (req : Proto.GetCurrentTemperaturesRequest)
    (w : World) :
  store (snd (GetCurrentTemperatures faulty req w)) = store w
  /\ ticks (snd (GetCurrentTemperatures faulty req w)) = ticks w.
Proof.
  unfold GetCurrentTemperatures. apply quiet_run.
  unfold Model, Where, Select, Group, Joins. quiet_steps.
Qed.

Lemma GetTemperatureStats_quiet (req : Proto.GetTemperatureStatsRequest)
    (w : World) :
  store (snd (GetTemperatureStats faulty req w)) = store w
  /\ ticks (snd (GetTemperatureStats faulty req w)) = ticks w.
Proof.
  unfold GetTemperatureStats. apply quiet_run.
  unfold Model, Where, Distinct. quiet_steps. apply quiet_statsLoop.
Qed.

End QuietFacts.

(** X4: the three queries only read: whatever the request and whatever
    the backend does, the store after [GetTemperatureHistory],
    [GetCurrentTemperatures] or [GetTemperatureStats] is the store before,
    and the clock has not been read. *)
Theorem queries_never_write :
  forall (faulty : nat -> bool) (w : World)
         (history : Proto.GetTemperatureHistoryRequest)
         (current : Proto.GetCurrentTemperaturesRequest)
         (stats : Proto.GetTemperatureStatsRequest),
    (store (snd (GetTemperatureHistory faulty history w)) = store w
     /\ ticks (snd (GetTemperatureHistory faulty history w)) = ticks w)
    /\ (store (snd (GetCurrentTemperatures faulty current w)) = store w
        /\ ticks (snd (GetCurrentTemperatures faulty current w)) = ticks w)
    /\ (store (snd (GetTemperatureStats faulty stats w)) = store w
        /\ ticks (snd (GetTemperatureStats faulty stats w)) = ticks w).
Proof.
  intros faulty w history current stats.
  split; [apply GetTemperatureHistory_quiet|].
  split; [apply GetCurrentTemperatures_quiet | apply GetTemperatureStats_quiet].
Qed.

(** ** From a batch to the history *)

Lemma Forall2_In_left {A B : Type} (R : A -> B -> Prop) (l : list A) (l' : list B)
    (x : A) :
  Forall2 R l l' -> In x l -> exists y, In y l' /\ R x y.
Proof.
  induction 1 as [|a b l l' Hab _ IH]; intros Hin; [destruct Hin|].
  destruct Hin as [<- | Hin].
  - exists b. split; [now left | exact Hab].
  - destruct (IH Hin) as [y [Hy Hxy]]. exists y. split; [now right | exact Hxy].
Qed.

(** When no more readings pass the filters than the limit allows, the
    history holds them all. *)
Lemma history_complete_under_limit (faulty : nat -> bool)
    (req : Proto.GetTemperatureHistoryRequest) (w : World) :
  faulty (executed w) = false ->
  (List.length (filter (history_filter req) (temperature_readings (store w)))
   <= Z.to_nat (effectiveLimit (Proto.hist_Limit req)))%nat ->
  exists rows,
    fst (GetTemperatureHistory faulty req w) = Ok (map toProto rows)
    /\ Permutation rows
         (filter (history_filter req) (temperature_readings (store w))).
Proof.
  intros Hf Hlen. rewrite GetTemperatureHistory_run, Hf. cbn [fst].
  eexists. split; [reflexivity|].
  rewrite firstn_all2.
  - apply sort_desc_perm.
  - rewrite (Permutation_length (sort_desc_perm _)). exact Hlen.
Qed.

(** X5: a reading of an accepted batch, taken at an instant [T] that is
    not the zero time, comes back as it was sent: the history of its host
    and sensor over the window from [T] to [T] holds a reading equal to it
    in every field, provided the backend answers and no more readings
    match than the limit allows. *)
Theorem submitted_reading_is_in_history :
  forall (clock : nat -> Time) (faulty : nat -> bool)
         (batch : Proto.SubmitTemperatureRequest) (w w' : World)
         (resp : Proto.SubmitTemperatureResponse)
         (reading : Proto.TemperatureReading) (T : Time) (limit : Z),
    SubmitTemperature clock faulty batch w = (Ok resp, w') ->
    In reading (Proto.Readings batch) ->
    Proto.Timestamp reading = Some T ->
    T <> zeroTime ->
    let req := {| Proto.hist_ClientId := Proto.ClientId reading;
                  Proto.hist_SensorId := Proto.SensorId reading;
                  Proto.hist_StartTime := Some T;
                  Proto.hist_EndTime := Some T;
                  Proto.hist_Limit := limit |} in
    faulty (executed w') = false ->
    (List.length (filter (history_filter req) (temperature_readings (store w')))
     <= Z.to_nat (effectiveLimit limit))%nat ->
    exists found,
      fst (GetTemperatureHistory faulty req w') = Ok found
      /\ In reading found.
Proof.
  intros clock faulty batch w w' resp reading T limit Hsub Hin HT Hnz req Hf Hlen.
  destruct (accepted_rows clock faulty batch w Hsub) as [rows [Hrows Hall]].
  destruct (@Forall2_In_left _ _ _ _ _ reading Hall Hin) as [row [Hrow Has]].
  destruct (@history_complete_under_limit faulty req w' Hf Hlen)
    as [out [Hout Hperm]].
  exists (map toProto out). split; [exact Hout|].
  destruct Has as [H1 [H2 [H3 [H4 [H5 H6]]]]].
  rewrite HT in H6. cbn [Proto.AsTime] in H6. specialize (H6 Hnz).
  assert (Hrow' : In row out).
  { apply (Permutation_in _ (Permutation_sym Hperm)). apply filter_In. split.
    - rewrite Hrows. apply in_or_app. now right.
    - unfold history_filter, req. cbn.
      rewrite H1, H2, H6, !String.eqb_refl, !orb_true_r, Z.leb_refl.
      reflexivity. }
  apply in_map_iff. exists row. split; [|exact Hrow'].
  unfold toProto. rewrite H1, H2, H3, H4, H5, H6, <- HT.
  destruct reading; reflexivity.
Qed.

Lemma submitted_reading_is_in_history_witness :
  exists found,
    fst (GetTemperatureHistory no_fault
           {| Proto.hist_ClientId := "h1"; Proto.hist_SensorId := "hwmon0_1";
              Proto.hist_StartTime := Some 500; Proto.hist_EndTime := Some 500;
              Proto.hist_Limit := 10 |}
           (snd (SubmitTemperature sample_clock no_fault first_batch fresh_world)))
    = Ok found
    /\ In (wire "hwmon0_1" "h1" (552 # 10) "CPU" "Package" 500) found.
Proof.
  eapply (@submitted_reading_is_in_history sample_clock no_fault first_batch
            fresh_world _ _ (wire "hwmon0_1" "h1" (552 # 10) "CPU" "Package" 500)
            500 10).
  - vm_compute. reflexivity.
  - simpl. left. reflexivity.
  - reflexivity.
  - discriminate.
  - reflexivity.
  - vm_compute. lia.
Defined.

(** ** From a batch to the current temperatures *)

Lemma Forall2_In_right {A B : Type} (R : A -> B -> Prop) (l : list A) (l' : list B)
    (y : B) :
  Forall2 R l l' -> In y l' -> exists x, In x l /\ R x y.
Proof.
  induction 1 as [|a b l l' Hab _ IH]; intros Hin; [destruct Hin|].
  destruct Hin as [<- | Hin].
  - exists a. split; [now left | exact Hab].
  - destruct (IH Hin) as [x [Hx Hxy]]. exists x. split; [now right | exact Hxy].
Qed.

Lemma max_time_is (l : list Time) (t : Time) :
  In t l -> (forall x, In x l -> x <= t) -> max_time l = t.
Proof.
  intros Hin Hle. apply Z.le_antisymm.
  - apply Hle. apply max_time_In. intros ->. destruct Hin.
  - now apply max_time_ge.
Qed.

(** A reading sent with an instant that is not the zero time is stored and
    sent back unchanged. *)
Lemma toProto_stored (reading : Proto.TemperatureReading) (row : TemperatureReading)
    (T : Time) :
  Proto.Timestamp reading = Some T -> T <> zeroTime ->
  stored_as reading row ->
  toProto row = reading /\ rCreatedAt row = T.
Proof.
  intros HT Hnz [H1 [H2 [H3 [H4 [H5 H6]]]]].
  rewrite HT in H6. cbn [Proto.AsTime] in H6. specialize (H6 Hnz).
  split; [|exact H6].
  unfold toProto. rewrite H1, H2, H3, H4, H5, H6, <- HT.
  destruct reading; reflexivity.
Qed.

(** X6: a batch whose readings all bear the instant [T] is accepted, and
    the stored readings of one of its sensors on its host are all older
    than [T]: the current temperatures of that host then show the reading
    of the batch for that sensor, and every row they show for that sensor
    is a reading of the batch taken at [T]; no older reading is shown. *)
Theorem current_shows_the_new_batch :
  forall (clock : nat -> Time) (faulty : nat -> bool)
         (batch : Proto.SubmitTemperatureRequest) (w w' : World)
         (resp : Proto.SubmitTemperatureResponse)
         (reading : Proto.TemperatureReading) (T : Time),
    SubmitTemperature clock faulty batch w = (Ok resp, w') ->
    faulty (executed w') = false ->
    T <> zeroTime ->
    Forall (fun r => Proto.Timestamp r = Some T) (Proto.Readings batch) ->
    In reading (Proto.Readings batch) ->
    Proto.ClientId reading <> "" ->
    (forall r, In r (temperature_readings (store w)) ->
               rClientID r = Proto.ClientId reading ->
               rSensorID r = Proto.SensorId reading ->
               rCreatedAt r < T) ->
    exists shown,
      fst (GetCurrentTemperatures faulty
             {| Proto.cur_ClientId := Proto.ClientId reading |} w') = Ok shown
      /\ In reading shown
      /\ (forall p, In p shown -> Proto.SensorId p = Proto.SensorId reading ->
                    In p (Proto.Readings batch) /\ Proto.Timestamp p = Some T).
Proof.
  intros clock faulty batch w w' resp reading T Hsub Hf Hnz Hstamp Hin Hhost Hold.
  destruct (accepted_rows clock faulty batch w Hsub) as [rows [Hrows Hall]].
  rewrite Forall_forall in Hstamp.
  set (h := Proto.ClientId reading) in *.
  set (s := Proto.SensorId reading) in *.
  set (all := temperature_readings (store w')).
  assert (Hnew : forall row, In row rows ->
                 exists r, In r (Proto.Readings batch)
                           /\ toProto row = r /\ rCreatedAt row = T).
  { intros row Hrow.
    destruct (@Forall2_In_right _ _ _ _ _ row Hall Hrow) as [r [Hr Has]].
    exists r. split; [exact Hr|]. apply toProto_stored; auto. }
  assert (Hmax : latest_instant h s all = T).
  { unfold latest_instant. apply max_time_is.
    - destruct (@Forall2_In_left _ _ _ _ _ reading Hall Hin) as [row [Hrow Has]].
      destruct (toProto_stored (Hstamp _ Hin) Hnz Has) as [_ Hc].
      destruct Has as [H1 [H2 _]].
      rewrite <- Hc. apply in_map. apply filter_In. split.
      + apply filter_In. split.
        * unfold all. rewrite Hrows. apply in_or_app. now right.
        * apply String.eqb_eq. exact H2.
      + apply String.eqb_eq. exact H1.
    - intros x Hx. apply in_map_iff in Hx as [r [<- Hr]].
      apply filter_In in Hr as [Hr Hs]. apply filter_In in Hr as [Hr Hh].
      apply String.eqb_eq in Hs, Hh.
      unfold all in Hr. rewrite Hrows in Hr. apply in_app_or in Hr as [Hr | Hr].
      + specialize (Hold r Hr Hh Hs). lia.
      + destruct (Hnew r Hr) as [_ [_ [_ ->]]]. lia. }
  rewrite (@GetCurrentTemperatures_run faulty {| Proto.cur_ClientId := h |} w' Hhost), Hf.
  cbn [fst Proto.cur_ClientId]. fold h all. rewrite current_rows_filter.
  eexists. split; [reflexivity|]. split.
  - destruct (@Forall2_In_left _ _ _ _ _ reading Hall Hin) as [row [Hrow Has]].
    destruct (toProto_stored (Hstamp _ Hin) Hnz Has) as [Hp Hc].
    destruct Has as [H1 [H2 _]].
    apply in_map_iff. exists row. split; [exact Hp|].
    apply filter_In. split.
    + unfold all. rewrite Hrows. apply in_or_app. now right.
    + unfold is_latest. fold h in H2. fold s in H1.
      rewrite H2, H1, Hmax, Hc, String.eqb_refl, Z.eqb_refl. reflexivity.
  - intros p Hp Hs. apply in_map_iff in Hp as [r [<- Hr]].
    apply filter_In in Hr as [Hr Hl]. unfold is_latest in Hl.
    apply andb_true_iff in Hl as [Hh Hc].
    apply String.eqb_eq in Hh. apply Z.eqb_eq in Hc.
    cbn [toProto Proto.SensorId] in Hs. rewrite Hs, Hmax in Hc.
    unfold all in Hr. rewrite Hrows in Hr. apply in_app_or in Hr as [Hr | Hr].
    + specialize (Hold r Hr Hh Hs). lia.
    + destruct (Hnew r Hr) as [r' [Hr' [Hp _]]]. rewrite Hp.
      split; [exact Hr' | now apply Hstamp].
Qed.

Lemma current_shows_the_new_batch_witness :
  exists shown,
    fst (GetCurrentTemperatures no_fault {| Proto.cur_ClientId := "h1" |}
           (snd (SubmitTemperature sample_clock no_fault second_batch
                   (snd (SubmitTemperature sample_clock no_fault first_batch
                           fresh_world)))))
    = Ok shown
    /\ In (wire "hwmon0_1" "h1" 61 "CPU" "Package" 530) shown
    /\ (forall p, In p shown -> Proto.SensorId p = "hwmon0_1" ->
                  In p (Proto.Readings second_batch)
                  /\ Proto.Timestamp p = Some 530).
Proof.
  eapply (@current_shows_the_new_batch sample_clock no_fault second_batch
            (snd (SubmitTemperature sample_clock no_fault first_batch fresh_world))
            _ _ (wire "hwmon0_1" "h1" 61 "CPU" "Package" 530) 530).
  - vm_compute. reflexivity.
  - reflexivity.
  - discriminate.
  - repeat constructor.
  - simpl. left. reflexivity.
  - discriminate.
  - intros r Hr _ _. vm_compute in Hr. destruct Hr as [<- | []].
    vm_compute. reflexivity.
Defined.

(** ** The scanner, further *)

Lemma thermal_zone_samples (fs : FS) (thermalDirs : list string) :
  Forall2 (fun d s =>
             ID s = Base d /\ Type' s = "CPU"
             /\ channel_value fs (Join d "temp") = Some (TempMilliC s)
             /\ Name s = match ReadFile fs (Join d "type") with
                         | Ok data => TrimSpace data
                         | Err _ => "thermal"
                         end)
    (filter (fun d => parseable fs (Join d "temp")) thermalDirs)
    (flat_map (thermalZone fs []) thermalDirs).
Proof.
  induction thermalDirs as [|d ds IH]; simpl; [constructor|].
  unfold parseable, channel_value, thermalZone.
  destruct (ReadFile fs (Join d "temp")) as [data|e] eqn:Hr; [|exact IH].
  destruct (ParseInt (TrimSpace data)) as [v|] eqn:Hv; [|exact IH].
  simpl. constructor; [|exact IH].
  rewrite Hr, Hv. repeat split.
Qed.

(** X7: when the thermal zones can be listed, [readThermalZones] succeeds
    and gives, in order, one sample for each zone whose [temp] file is
    readable and parses: its identifier is the base name of the zone, its
    value the one read, its name the trimmed content of the [type] file
    (or "thermal" without one), and its type is CPU whatever the zone says
    it is. *)
Theorem thermal_zones_are_cpu :
  forall (fs : FS) (thermalDirs : list string),
    Glob fs "/sys/class/thermal/thermal_zone*" = Ok thermalDirs ->
    exists zones,
      readThermalZones fs = Ok zones
      /\ Forall2 (fun d s =>
                    ID s = Base d /\ Type' s = "CPU"
                    /\ channel_value fs (Join d "temp") = Some (TempMilliC s)
                    /\ Name s = match ReadFile fs (Join d "type") with
                                | Ok data => TrimSpace data
                                | Err _ => "thermal"
                                end)
           (filter (fun d => parseable fs (Join d "temp")) thermalDirs) zones.
Proof.
  intros fs thermalDirs HGlob. unfold readThermalZones. rewrite HGlob.
  eexists. split; [reflexivity|].
  rewrite fold_left_appending by apply thermalZone_appends. simpl.
  apply thermal_zone_samples.
Qed.

(** The shape of a scan. *)
Lemma scan_failures_are_local_aux (m : TemperatureMonitor) (fs : FS) :
  match Glob fs (Join (hwmonPath m) "hwmon*") with
  | Err e => GetTemperatures m fs = Err e
  | Ok hwmonDirs =>
      GetTemperatures m fs
      = Ok (flat_map (fun d => samples_of (readHwmonDevice fs d)) hwmonDirs
            ++ samples_of (readThermalZones fs))
  end.
Proof.
  unfold GetTemperatures.
  destruct (Glob fs (Join (hwmonPath m) "hwmon*")) as [hwmonDirs|e]; [|reflexivity].
  rewrite fold_left_appending by apply hwmonDevice_appends. simpl.
  rewrite (flat_map_ext (hwmonDevice fs [])
             (fun d => samples_of (readHwmonDevice fs d)))
    by (intros d; unfold hwmonDevice; destruct (readHwmonDevice fs d); reflexivity).
  destruct (readThermalZones fs); simpl; [reflexivity | now rewrite app_nil_r].
Qed.

(** X8: a scan fails only when the hwmon devices cannot be listed, and
    then with that error.  Otherwise it succeeds with the samples of the
    devices that could be read, in order, followed by those of the thermal
    zones: a device that cannot be read, or thermal zones that cannot be
    listed, only leave their own samples out. *)
Theorem scan_failures_are_local :
  forall (m : TemperatureMonitor) (fs : FS),
    match Glob fs (Join (hwmonPath m) "hwmon*") with
    | Err e => GetTemperatures m fs = Err e
    | Ok hwmonDirs =>
        GetTemperatures m fs
        = Ok (flat_map (fun d => samples_of (readHwmonDevice fs d)) hwmonDirs
              ++ samples_of (readThermalZones fs))
    end.
Proof.
  intros m fs. apply scan_failures_are_local_aux.
Qed.

Lemma parse_digits_nonneg (s : string) :
  forall acc n, 0 <= acc -> parse_digits acc s = Some n -> 0 <= n.
Proof.
  induction s as [|c s IH]; intros acc n Hacc; cbn [parse_digits].
  - intros H. injection H as <-. exact Hacc.
  - unfold digit_of.
    destruct ((48 <=? nat_of_ascii c)%nat && (nat_of_ascii c <=? 57)%nat);
      [|discriminate].
    apply IH. lia.
Qed.

(** What [ParseInt] returns is in the range of [int64]. *)
Lemma ParseInt_fits (s : string) (v : Z) : ParseInt s = Some v -> fits_int64 v.
Proof.
  unfold ParseInt, ParseUint, fits_int64. destruct s as [|c t]; [discriminate|].
  set (body := if (c =? "+")%char || (c =? "-")%char then t else String c t).
  destruct body as [|c' t'] eqn:Hbody; [discriminate|].
  destruct (parse_digits 0 (String c' t')) as [un|] eqn:Hun; [|discriminate].
  pose proof (@parse_digits_nonneg _ 0 un (Z.le_refl 0) Hun) as Hpos.
  assert (Hp : 0 < 2 ^ 63) by reflexivity.
  generalize dependent (2 ^ 63). intros p Hp.
  destruct (c =? "-")%char.
  - destruct (un <=? p) eqn:Hle; [|discriminate].
    intros H. injection H as <-. apply Z.leb_le in Hle. lia.
  - destruct (un <? p) eqn:Hlt; [|discriminate].
    intros H. injection H as <-. apply Z.ltb_lt in Hlt. lia.
Qed.

Lemma hwmonChannel_fits (fs : FS) (hwmonDir deviceName tempFile : string)
    (s : TemperatureSensor) :
  In s (hwmonChannel fs hwmonDir deviceName [] tempFile) ->
  fits_int64 (TempMilliC s).
Proof.
  unfold hwmonChannel.
  destruct (List.length _ <? 2)%nat; [intros []|].
  destruct (ReadFile fs tempFile); [|intros []].
  destruct (ParseInt _) as [v|] eqn:Hv; [|intros []].
  intros [<- | []]. simpl. now apply ParseInt_fits in Hv.
Qed.

Lemma thermalZone_fits (fs : FS) (thermalDir : string) (s : TemperatureSensor) :
  In s (thermalZone fs [] thermalDir) -> fits_int64 (TempMilliC s).
Proof.
  unfold thermalZone.
  destruct (ReadFile fs _); [|intros []].
  destruct (ParseInt _) as [v|] eqn:Hv; [|intros []].
  intros [<- | []]. simpl. now apply ParseInt_fits in Hv.
Qed.

(** X9: every sample of a scan carries a value in the range of a 64-bit
    signed integer: a channel whose text is a number out of that range is
    left out like one that is no number. *)
Theorem scanned_values_fit_int64 :
  forall (m : TemperatureMonitor) (fs : FS) (sensors : list TemperatureSensor),
    GetTemperatures m fs = Ok sensors ->
    Forall (fun s => fits_int64 (TempMilliC s)) sensors.
Proof.
  intros m fs sensors Hscan.
  pose proof (scan_failures_are_local_aux m fs) as Hshape.
  destruct (Glob fs (Join (hwmonPath m) "hwmon*")) as [hwmonDirs|e];
    [|congruence].
  rewrite Hshape in Hscan. injection Hscan as <-.
  apply Forall_forall. intros s Hs. apply in_app_or in Hs as [Hs | Hs].
  - apply in_flat_map in Hs as [d [_ Hs]]. unfold readHwmonDevice in Hs.
    destruct (Glob fs (Join d "temp*_input")) as [tempFiles|e]; [|destruct Hs].
    simpl in Hs. rewrite fold_left_appending in Hs by apply hwmonChannel_appends.
    simpl in Hs. apply in_flat_map in Hs as [f [_ Hs]].
    now apply hwmonChannel_fits in Hs.
  - unfold readThermalZones in Hs.
    destruct (Glob fs "/sys/class/thermal/thermal_zone*") as [dirs|e]; [|destruct Hs].
    simpl in Hs. rewrite fold_left_appending in Hs by apply thermalZone_appends.
    simpl in Hs. apply in_flat_map in Hs as [d [_ Hs]].
    now apply thermalZone_fits in Hs.
Qed.

Lemma thermal_zones_are_cpu_witness :
  exists zones,
    readThermalZones thermal_fs = Ok zones
    /\ Forall2 (fun d s =>
                  ID s = Base d /\ Type' s = "CPU"
                  /\ channel_value thermal_fs (Join d "temp") = Some (TempMilliC s)
                  /\ Name s = match ReadFile thermal_fs (Join d "type") with
                              | Ok data => TrimSpace data
                              | Err _ => "thermal"
                              end)
         (filter (fun d => parseable thermal_fs (Join d "temp"))
            ["/sys/class/thermal/thermal_zone0";
             "/sys/class/thermal/thermal_zone1"]) zones.
Proof.
  apply (@thermal_zones_are_cpu thermal_fs). reflexivity.
Defined.

Example thermal_fs_scan :
  GetTemperatures NewTemperatureMonitor thermal_fs
  = Ok [ {| ID := "thermal_zone0"; Type' := "CPU"; Name := "x86_pkg_temp";
            TempMilliC := 42000 |} ].
Proof. vm_compute. reflexivity. Qed.

Lemma scanned_values_fit_int64_witness :
  Forall (fun s => fits_int64 (TempMilliC s))
    [ {| ID := "hwmon0_1"; Type' := "CPU"; Name := "Package id 0";
         TempMilliC := 45000 |};
      {| ID := "hwmon0_4"; Type' := "CPU"; Name := "coretemp_temp4";
         TempMilliC := 38500 |} ].
Proof.
  apply (@scanned_values_fit_int64 NewTemperatureMonitor sample_fs).
  vm_compute. reflexivity.
Defined.

(** ** Identifiers of the samples *)

Lemma has_char_app (c : ascii) (a b : string) :
  has_char c (a ++ b)%string = has_char c a || has_char c b.
Proof.
  induction a as [|x a IH]; simpl; [reflexivity|].
  now rewrite IH, orb_assoc.
Qed.

Lemma Split_no_sep (s : string) (sep : ascii) :
  has_char sep s = false -> Split s sep = [s].
Proof.
  induction s as [|c s IH]; simpl; [reflexivity|].
  intros H. apply orb_false_iff in H as [Hc Hs].
  rewrite Hc, (IH Hs). reflexivity.
Qed.

Lemma Split_at_first (a b : string) (sep : ascii) :
  has_char sep a = false ->
  Split (a ++ String sep b) sep = a :: Split b sep.
Proof.
  induction a as [|c a IH]; simpl.
  - intros _. now rewrite Ascii.eqb_refl.
  - intros H. apply orb_false_iff in H as [Hc Ha].
    rewrite Hc, (IH Ha). reflexivity.
Qed.

Lemma last_dflt_nonempty {A : Type} (d d' : A) (l : list A) :
  l <> [] -> last_dflt d l = last_dflt d' l.
Proof. destruct l; [congruence | reflexivity]. Qed.

Lemma Split_last (a b : string) (sep : ascii) (d : string) :
  last_dflt d (Split (a ++ String sep b) sep)
  = last_dflt EmptyString (Split b sep).
Proof.
  revert d. induction a as [|c a IH]; intros d; simpl.
  - now rewrite Ascii.eqb_refl.
  - destruct (Ascii.eqb c sep); simpl; [apply IH|].
    pose proof (Split_two a b sep) as Hlen. specialize (IH d).
    destruct (Split (a ++ String sep b) sep) as [|p [|q ps]];
      simpl in Hlen; try lia.
    simpl in *. exact IH.
Qed.

Lemma TrimRightSlash_no_slash (s : string) :
  has_char "/"%char s = false -> TrimRightSlash s = s.
Proof.
  induction s as [|c s IH]; simpl; [reflexivity|].
  intros H. apply orb_false_iff in H as [Hc Hs].
  rewrite (IH Hs), Hc. destruct s; reflexivity.
Qed.

Lemma TrimRightSlash_app (a b : string) :
  TrimRightSlash b <> EmptyString ->
  TrimRightSlash (a ++ b) = (a ++ TrimRightSlash b)%string.
Proof.
  intros Hb. induction a as [|c a IH]; simpl; [reflexivity|].
  rewrite IH. destruct (a ++ TrimRightSlash b)%string eqn:Hab; [|reflexivity].
  destruct a; simpl in Hab; [contradiction | discriminate].
Qed.

(** [filepath.Base] undoes [filepath.Join] on a name that is not empty
    and holds no separator. *)
Lemma Base_Join (dir name : string) :
  name <> EmptyString -> has_char "/"%char name = false ->
  Base (Join dir name) = name.
Proof.
  intros Hne Hns. unfold Base, Join.
  assert (Htrim : TrimRightSlash (dir ++ String "/" name)
                  = (dir ++ String "/" name)%string).
  { assert (Hb : TrimRightSlash (String "/" name) = String "/" name).
    { simpl. rewrite (TrimRightSlash_no_slash _ Hns).
      destruct name; [congruence | reflexivity]. }
    rewrite TrimRightSlash_app; rewrite Hb; [reflexivity | discriminate]. }
  change (dir ++ "/" ++ name)%string with (dir ++ String "/" name)%string.
  rewrite Htrim.
  destruct (dir ++ String "/" name)%string eqn:Hpath.
  - destruct dir; discriminate.
  - rewrite <- Hpath, Split_last, (Split_no_sep _ _ Hns). reflexivity.
Qed.

Lemma append_inj_l (a b c : string) : (a ++ b = a ++ c)%string -> b = c.
Proof.
  induction a as [|x a IH]; simpl; [trivial|].
  intros H. injection H as H. now apply IH.
Qed.

(** X10: the channel file [temp<n>_input] of a device, when it is readable
    and parses, gives one sample whose identifier is the base name of the
    device directory, an underscore and [n], whose value is the one read,
    and whose name is the trimmed content of [temp<n>_label] or, without
    that file, the device name followed by [_temp<n>]: the identifier
    depends on the directory and the channel alone, and two channels of a
    device have different identifiers. *)
Theorem sample_identifier_is_stable :
  forall (fs : FS) (hwmonDir deviceName n : string) (v : Z),
    has_char "_"%char n = false ->
    has_char "/"%char n = false ->
    channel_value fs (Join hwmonDir ("temp" ++ n ++ "_input")%string) = Some v ->
    (exists s,
        hwmonChannel fs hwmonDir deviceName []
          (Join hwmonDir ("temp" ++ n ++ "_input")%string) = [s]
        /\ ID s = (Base hwmonDir ++ "_" ++ n)%string
        /\ TempMilliC s = v
        /\ Name s
           = match ReadFile fs (Join hwmonDir ("temp" ++ n ++ "_label")%string) with
             | Ok data => TrimSpace data
             | Err _ => (deviceName ++ "_temp" ++ n)%string
             end)
    /\ (forall n', n' <> n ->
                   (Base hwmonDir ++ "_" ++ n')%string
                   <> (Base hwmonDir ++ "_" ++ n)%string).
Proof.
  intros fs hwmonDir deviceName n v Hu Hs Hv. split.
  - unfold hwmonChannel.
    assert (Hname : has_char "/"%char ("temp" ++ n ++ "_input")%string = false).
    { rewrite !has_char_app, Hs. reflexivity. }
    assert (Hne : ("temp" ++ n ++ "_input")%string <> EmptyString)
      by (simpl; discriminate).
    rewrite (@Base_Join hwmonDir _ Hne Hname).
    assert (Hparts : Split ("temp" ++ n ++ "_input")%string "_"%char
                     = [("temp" ++ n)%string; "input"]).
    { change ("temp" ++ n ++ "_input")%string
        with ("temp" ++ (n ++ String "_"%char "input"))%string.
      rewrite <- append_assoc, Split_at_first.
      - reflexivity.
      - rewrite has_char_app, Hu. reflexivity. }
    rewrite Hparts. cbn [List.length Nat.ltb Nat.leb hd].
    unfold channel_value in Hv.
    destruct (ReadFile fs (Join hwmonDir ("temp" ++ n ++ "_input")%string))
      as [data|e]; [|discriminate].
    rewrite Hv.
    assert (Hnum : TrimPrefix ("temp" ++ n)%string "temp" = n).
    { unfold TrimPrefix. reflexivity. }
    rewrite Hnum. eexists. split; [reflexivity|]. repeat split.
  - intros n' Hne Heq. apply append_inj_l in Heq.
    injection Heq as Heq. contradiction.
Qed.

Lemma sample_identifier_is_stable_witness :
  (exists s,
      hwmonChannel sample_fs "/sys/class/hwmon/hwmon0" "coretemp" []
        (Join "/sys/class/hwmon/hwmon0" ("temp" ++ "1" ++ "_input")%string) = [s]
      /\ ID s = (Base "/sys/class/hwmon/hwmon0" ++ "_" ++ "1")%string
      /\ TempMilliC s = 45000
      /\ Name s
         = match ReadFile sample_fs
                   (Join "/sys/class/hwmon/hwmon0" ("temp" ++ "1" ++ "_label")%string)
           with
           | Ok data => TrimSpace data
           | Err _ => ("coretemp" ++ "_temp" ++ "1")%string
           end)
  /\ (forall n', n' <> "1" ->
                 (Base "/sys/class/hwmon/hwmon0" ++ "_" ++ n')%string
                 <> (Base "/sys/class/hwmon/hwmon0" ++ "_" ++ "1")%string).
Proof.
  apply (@sample_identifier_is_stable sample_fs "/sys/class/hwmon/hwmon0"
           "coretemp" "1" 45000); reflexivity.
Defined.

(** ** The polling cycle *)


(** X12: an agent whose calls reach [SubmitTemperature] is never told
    that its batch is empty and never receives an answer that is not a
    success: a cycle ends without error, or because the scan failed, or
    because the service answered Internal; with a backend that carries out
    every statement only a failed scan makes a cycle fail. *)
Theorem agent_batches_are_accepted :
  forall (clock : nat -> Time) (faulty : nat -> bool) (w : World)
         (now : Time) (fs : FS) (monitor : TemperatureMonitor)
         (clientID : string) (cfg : Config),
    let rpc := fun req => fst (SubmitTemperature clock faulty req w) in
    let outcome := fst (collectAndSendTemperatures rpc now fs monitor clientID cfg) in
    (outcome = None
     \/ (exists e, GetTemperatures monitor fs = Err e
                   /\ outcome = Some (FailedToGetTemperatures e))
     \/ outcome = Some (FailedToSubmit Internal))
    /\ ((forall k, faulty k = false) ->
        outcome <> Some (FailedToSubmit Internal)).
Proof.
  intros clock faulty w now fs monitor clientID cfg rpc outcome.
  subst outcome. unfold collectAndSendTemperatures.
  destruct (GetTemperatures monitor fs) as [sensors|e];
    [|split; [right; left; exists e; split; reflexivity | discriminate]].
  destruct sensors as [|s0 rest]; [split; [now left | discriminate]|].
  destruct (filterSensors cfg (s0 :: rest)) as [|f0 frest];
    [split; [now left | discriminate]|].
  set (req := {| Proto.Readings := map (toReading clientID now) (f0 :: frest) |}).
  assert (Hne : Proto.Readings req <> []) by (simpl; discriminate).
  subst rpc. cbn beta.
  pose proof (submit_outcomes clock faulty req w) as Hout.
  destruct (SubmitTemperature clock faulty req w) as [[resp|[|]] w'] eqn:Hsub;
    cbn [fst].
  - destruct Hout as [_ [Hs _]]. rewrite Hs. split; [now left | discriminate].
  - destruct Hout as [Hempty _]. contradiction.
  - split; [now right; right|]. intros Hf.
    destruct (@SubmitTemperature_ok clock faulty Hf req w Hne)
      as [w1 [resp [_ Hok]]].
    congruence.
Qed.

(** ** Statistics of a named sensor *)

Lemma Qmin_cases (x y : Q) : Qmin x y = x \/ Qmin x y = y.
Proof.
  unfold Qmin, GenericMinMax.gmin. destruct (x ?= y)%Q; auto.
Qed.

Lemma Qmax_cases (x y : Q) : Qmax x y = x \/ Qmax x y = y.
Proof.
  unfold Qmax, GenericMinMax.gmax. destruct (x ?= y)%Q; auto.
Qed.

Lemma fold_Qmin_le (ts : list Q) :
  forall t, (fold_left Qmin ts t <= t)%Q
            /\ (forall x, In x ts -> (fold_left Qmin ts t <= x)%Q)
            /\ In (fold_left Qmin ts t) (t :: ts).
Proof.
  induction ts as [|a ts IH]; intros t; simpl.
  - split; [apply Qle_refl|]. split; [intros x []| now left].
  - destruct (IH (Qmin t a)) as [H1 [H2 H3]]. split; [|split].
    + eapply Qle_trans; [exact H1 | apply Q.le_min_l].
    + intros x [<- | Hx].
      * eapply Qle_trans; [exact H1 | apply Q.le_min_r].
      * now apply H2.
    + destruct H3 as [H3 | H3]; [|now right; right].
      destruct (Qmin_cases t a) as [E | E]; rewrite E in H3 |- *.
      * now left.
      * right. now left.
Qed.

Lemma fold_Qmax_ge (ts : list Q) :
  forall t, (t <= fold_left Qmax ts t)%Q
            /\ (forall x, In x ts -> (x <= fold_left Qmax ts t)%Q)
            /\ In (fold_left Qmax ts t) (t :: ts).
Proof.
  induction ts as [|a ts IH]; intros t; simpl.
  - split; [apply Qle_refl|]. split; [intros x []| now left].
  - destruct (IH (Qmax t a)) as [H1 [H2 H3]]. split; [|split].
    + eapply Qle_trans; [apply Q.le_max_l | exact H1].
    + intros x [<- | Hx].
      * eapply Qle_trans; [apply Q.le_max_r | exact H1].
      * now apply H2.
    + destruct H3 as [H3 | H3]; [|now right; right].
      destruct (Qmax_cases t a) as [E | E]; rewrite E in H3 |- *.
      * now left.
      * right. now left.
Qed.

Lemma q_sum_bounds (lo hi : Q) (l : list Q) :
  (forall x, In x l -> lo <= x /\ x <= hi)%Q ->
  (lo * inject_Z (Z.of_nat (List.length l)) <= q_sum l
   /\ q_sum l <= hi * inject_Z (Z.of_nat (List.length l)))%Q.
Proof.
  induction l as [|a l IH]; intros Hb.
  - simpl. split; ring_simplify; apply Qle_refl.
  - destruct IH as [IH1 IH2]; [intros x Hx; apply Hb; now right|].
    destruct (Hb a (or_introl eq_refl)) as [Ha1 Ha2].
    assert (Hlen : (inject_Z (Z.of_nat (List.length (a :: l)))
                    == 1 + inject_Z (Z.of_nat (List.length l)))%Q).
    { cbn [List.length]. rewrite Nat2Z.inj_succ. unfold Z.succ.
      rewrite inject_Z_plus. ring. }
    cbn [q_sum fold_right]. fold (q_sum l). rewrite Hlen. split.
    + setoid_replace (lo * (1 + inject_Z (Z.of_nat (List.length l))))%Q
        with (lo + lo * inject_Z (Z.of_nat (List.length l)))%Q by ring.
      now apply Qplus_le_compat.
    + setoid_replace (hi * (1 + inject_Z (Z.of_nat (List.length l))))%Q
        with (hi + hi * inject_Z (Z.of_nat (List.length l)))%Q by ring.
      now apply Qplus_le_compat.
Qed.

(** What [aggregate] holds: the count, the bounds, that the bounds are
    values of rows, and the mean. *)
Lemma aggregate_facts (rows : list TemperatureReading) :
  Count (aggregate rows) = Z.of_nat (List.length rows)
  /\ (forall r, In r rows ->
        (MinTemp (aggregate rows) <= rTemperatureCelsius r
         /\ rTemperatureCelsius r <= MaxTemp (aggregate rows))%Q)
  /\ (rows <> [] ->
      (exists r, In r rows /\ rTemperatureCelsius r = MinTemp (aggregate rows))
      /\ (exists r, In r rows /\ rTemperatureCelsius r = MaxTemp (aggregate rows))
      /\ (AvgTemp (aggregate rows) * inject_Z (Z.of_nat (List.length rows))
          == q_sum (map rTemperatureCelsius rows))%Q
      /\ (MinTemp (aggregate rows) <= AvgTemp (aggregate rows)
          /\ AvgTemp (aggregate rows) <= MaxTemp (aggregate rows))%Q)
  /\ (rows = [] ->
      aggregate rows
      = {| AvgTemp := 0%Q; MinTemp := 0%Q; MaxTemp := 0%Q; Count := 0 |}).
Proof.
  unfold aggregate.
  rewrite <- (length_map rTemperatureCelsius rows).
  assert (Hin : forall r, In r rows ->
                          In (rTemperatureCelsius r) (map rTemperatureCelsius rows))
    by (intros r; apply in_map).
  assert (Hback : forall v, In v (map rTemperatureCelsius rows) ->
                            exists r, In r rows /\ rTemperatureCelsius r = v).
  { intros v Hv. apply in_map_iff in Hv as [r [E Hr]]. now exists r. }
  assert (Hnil : rows = [] -> map rTemperatureCelsius rows = [])
    by (now intros ->).
  assert (Hcons : rows <> [] -> map rTemperatureCelsius rows <> [])
    by (destruct rows; [congruence | discriminate]).
  destruct (map rTemperatureCelsius rows) as [|t ts].
  - split; [reflexivity|]. split; [intros r Hr; destruct (Hin r Hr)|].
    split; [intros H; now destruct (Hcons H) | reflexivity].
  - destruct (fold_Qmin_le ts t) as [Hm1 [Hm2 Hm3]].
    destruct (fold_Qmax_ge ts t) as [HM1 [HM2 HM3]].
    cbn [Count MinTemp MaxTemp AvgTemp].
    assert (Hbounds : forall x, In x (t :: ts) ->
                (fold_left Qmin ts t <= x /\ x <= fold_left Qmax ts t)%Q).
    { intros x [<- | Hx]; split; auto. }
    split; [reflexivity|]. split; [intros r Hr; apply Hbounds, Hin, Hr|].
    split; [|intros H; specialize (Hnil H); discriminate].
    intros _.
    assert (Hpos : (0 < inject_Z (Z.of_nat (List.length (t :: ts))))%Q).
    { rewrite <- (Zlt_Qlt 0). cbn [List.length]. lia. }
    assert (Hnz : ~ (inject_Z (Z.of_nat (List.length (t :: ts))) == 0)%Q).
    { intros E. rewrite E in Hpos. discriminate Hpos. }
    destruct (@q_sum_bounds (fold_left Qmin ts t) (fold_left Qmax ts t)
                (t :: ts) Hbounds) as [Hlo Hhi].
    split; [destruct (Hback _ Hm3) as [r [Hr E]]; now exists r|].
    split; [destruct (Hback _ HM3) as [r [Hr E]]; now exists r|].
    split; [field_simplify; [reflexivity | exact Hnz]|].
    split.
    + apply Qle_shift_div_l; assumption.
    + apply Qle_shift_div_r; assumption.
Qed.



(** ** The two copies of [SubmitTemperature] *)

Lemma find_client_keys (id : string) (l1 : list Client) :
  forall l2,
    map client_key l1 = map client_key l2 ->
    match find (fun c => (cClientID c =? id)%string) l1,
          find (fun c => (cClientID c =? id)%string) l2 with
    | Some a, Some b => client_key a = client_key b
    | None, None => True
    | _, _ => False
    end.
Proof.
  induction l1 as [|a l1 IH]; intros [|b l2] H; try discriminate H.
  - exact I.
  - cbn [map] in H.
    assert (Hk : client_key a = client_key b) by congruence.
    assert (Hl : map client_key l1 = map client_key l2) by congruence.
    assert (E : cClientID a = cClientID b)
      by (unfold client_key in Hk; congruence).
    simpl. rewrite E.
    destruct (cClientID b =? id)%string; [exact Hk | now apply IH].
Qed.

Lemma client_keys_ids (l1 l2 : list Client) :
  map client_key l1 = map client_key l2 -> map cID l1 = map cID l2.
Proof.
  intros H.
  assert (E : forall l, map cID l = map (fun k => fst (fst k)) (map client_key l))
    by (intros l; rewrite map_map; reflexivity).
  now rewrite !E, H.
Qed.

Lemma client_keys_updated (id : nat) (t : Time) (b : bool) (l : list Client) :
  map client_key
    (map (fun c =>
            if (cID c =? id)%nat then
              {| cID := cID c; cClientID := cClientID c;
                 cFirstSeen := cFirstSeen c;
                 cLastSeen := t; cIsOnline := b |}
            else c) l)
  = map client_key l.
Proof.
  rewrite map_map. apply map_ext. intros c.
  now destruct (cID c =? id)%nat.
Qed.

Section CopiesFacts.

Variable clock : nat -> Time.
Variable faulty : nat -> bool.
Hypothesis no_faults : forall k, faulty k = false.

Lemma submitReading_copies (reading : Proto.TemperatureReading) (w1 w2 : World) :
  same_but_presence (store w1) (store w2) ->
  ticks w1 = ticks w2 ->
  exists w1' w2',
    submitReading clock faulty reading w1 = (None, w1')
    /\ submitReading_v0 clock faulty reading w2 = (None, w2')
    /\ same_but_presence (store w1') (store w2')
    /\ ticks w1' = ticks w2'.
Proof.
  intros [Hs [Hr Hc]] Ht.
  pose proof (find_client_keys (Proto.ClientId reading) _ _ Hc) as Hfind.
  pose proof (client_keys_ids _ _ Hc) as Hids.
  unfold submitReading, submitReading_v0, Now, FirstOrCreateClient,
    UpdatesClient, FirstOrCreateSensor, CreateReading, Now, send, with_store.
  cbn. rewrite !no_faults. cbn.
  destruct (find _ (clients (store w1))) as [a|];
    destruct (find _ (clients (store w2))) as [b|]; try contradiction;
    cbn; rewrite ?no_faults; cbn;
    repeat match goal with
           | |- context [negb (?x =? 0)%nat] => destruct (x =? 0)%nat; cbn
           end;
    rewrite ?no_faults; cbn; rewrite <- ?Hs;
    (destruct (find _ (sensors (store w1))) as [s|]);
    cbn; rewrite ?no_faults; cbn;
    (destruct (Proto.AsTime (Proto.Timestamp reading) =? zeroTime));
    cbn; rewrite ?no_faults; cbn;
    do 2 eexists; (split; [reflexivity|]); (split; [reflexivity|]);
    unfold same_but_presence; cbn;
    rewrite ?client_keys_updated, ?map_app, ?client_keys_updated, ?Hs, ?Hr, ?Ht;
    repeat split; try congruence;
    unfold client_key in *; cbn; rewrite ?Hids; congruence.
Qed.

Lemma submitLoop_copies (readings : list Proto.TemperatureReading) :
  forall w1 w2,
    same_but_presence (store w1) (store w2) ->
    ticks w1 = ticks w2 ->
    exists w1' w2',
      submitLoop clock faulty readings w1 = (None, w1')
      /\ submitLoop_v0 clock faulty readings w2 = (None, w2')
      /\ same_but_presence (store w1') (store w2')
      /\ ticks w1' = ticks w2'.
Proof.
  induction readings as [|reading rest IH]; intros w1 w2 Hs Ht.
  - exists w1, w2. split; [reflexivity|]. split; [reflexivity|].
    split; assumption.
  - destruct (submitReading_copies reading w1 w2 Hs Ht)
      as [m1 [m2 [H1 [H2 [Hs' Ht']]]]].
    cbn [submitLoop submitLoop_v0]. rewrite H1, H2. now apply IH.
Qed.

End CopiesFacts.

(** X14: with a backend that carries out every statement, the copy of
    [SubmitTemperature] in [service/temperature_service.go] and the one that
    follows the separator in [models/settings.go] give the same answer to
    every batch and leave the same sensors, the same readings and the same
    hosts with the same keys and first-seen instants, having read the clock
    as often: the stores differ at most in [last_seen] and [is_online]. *)
Theorem submit_copies_differ_in_presence_only :
  forall (clock : nat -> Time) (faulty : nat -> bool)
         (req : Proto.SubmitTemperatureRequest) (w : World),
    (forall k, faulty k = false) ->
    fst (SubmitTemperature clock faulty req w)
    = fst (SubmitTemperature_v0 clock faulty req w)
    /\ same_but_presence
         (store (snd (SubmitTemperature clock faulty req w)))
         (store (snd (SubmitTemperature_v0 clock faulty req w)))
    /\ ticks (snd (SubmitTemperature clock faulty req w))
       = ticks (snd (SubmitTemperature_v0 clock faulty req w)).
Proof.
  intros clock faulty req w Hf.
  unfold SubmitTemperature, SubmitTemperature_v0.
  destruct (List.length (Proto.Readings req) =? 0)%nat;
    [repeat split; reflexivity|].
  unfold Transaction, send. rewrite Hf. cbn [negb].
  destruct (@submitLoop_copies clock faulty Hf (Proto.Readings req)
              {| store := store w; executed := S (executed w); ticks := ticks w |}
              {| store := store w; executed := S (executed w); ticks := ticks w |})
    as [w1 [w2 [H1 [H2 [Hs Ht]]]]]; [repeat split | reflexivity |].
  rewrite H1, H2, !Hf. cbn. split; [reflexivity|]. split; assumption.
Qed.

Lemma submit_copies_differ_in_presence_only_witness :
  same_but_presence
    (store (snd (SubmitTemperature sample_clock no_fault second_batch
                   (snd (SubmitTemperature sample_clock no_fault first_batch
                           fresh_world)))))
    (store (snd (SubmitTemperature_v0 sample_clock no_fault second_batch
                   (snd (SubmitTemperature sample_clock no_fault first_batch
                           fresh_world))))).
Proof.
  apply (@submit_copies_differ_in_presence_only sample_clock no_fault second_batch
           (snd (SubmitTemperature sample_clock no_fault first_batch fresh_world))
           (fun _ => eq_refl)).
Defined.

(** ** The presence update *)

(** X15: the outcome of the statement that updates [last_seen] and
    [is_online] is not looked at.  For a batch of one reading of a host
    that is stored, the third statement of the call is that update (after
    BEGIN and the lookup of the host); when it fails and every other
    statement goes through, the batch is accepted all the same: the reading
    is stored and the hosts are as they were, [last_seen] included. *)
Theorem failed_presence_update_is_ignored :
  forall (clock : nat -> Time) (faulty : nat -> bool)
         (reading : Proto.TemperatureReading) (w : World) (found : Client),
    find (fun c => (cClientID c =? Proto.ClientId reading)%string)
      (clients (store w)) = Some found ->
    cID found <> 0%nat ->
    faulty (executed w + 2)%nat = true ->
    (forall k, k <> (executed w + 2)%nat -> faulty k = false) ->
    exists resp w' row,
      SubmitTemperature clock faulty {| Proto.Readings := [reading] |} w
      = (Ok resp, w')
      /\ Proto.Success resp = true
      /\ clients (store w') = clients (store w)
      /\ temperature_readings (store w')
         = temperature_readings (store w) ++ [row]
      /\ stored_as reading row.
Proof.
  intros clock faulty reading w found Hfind Hid Hbad Hgood.
  apply Nat.eqb_neq in Hid.
  assert (H0 : faulty (executed w) = false) by (apply Hgood; lia).
  assert (H1 : faulty (S (executed w)) = false) by (apply Hgood; lia).
  assert (H2 : faulty (S (S (executed w))) = true)
    by (rewrite <- Hbad; f_equal; lia).
  assert (H3 : faulty (S (S (S (executed w)))) = false) by (apply Hgood; lia).
  assert (H4 : faulty (S (S (S (S (executed w))))) = false)
    by (apply Hgood; lia).
  assert (H5 : faulty (S (S (S (S (S (executed w)))))) = false)
    by (apply Hgood; lia).
  assert (H6 : faulty (S (S (S (S (S (S (executed w))))))) = false)
    by (apply Hgood; lia).
  unfold SubmitTemperature, Transaction, submitLoop, submitReading, Now,
    FirstOrCreateClient, UpdatesClient, FirstOrCreateSensor, CreateReading,
    Now, send, with_store.
  cbn. rewrite H0. cbn. rewrite H1. cbn. rewrite Hfind. cbn.
  rewrite Hid. cbn. rewrite H2. cbn. rewrite H3. cbn.
  destruct (find _ (sensors (store w))) as [s|]; cbn;
    rewrite ?H4; cbn;
    (destruct (Proto.AsTime (Proto.Timestamp reading) =? zeroTime) eqn:Hz);
    cbn; rewrite ?H4, ?H5; cbn; rewrite ?H5, ?H6; cbn;
    do 3 eexists; (split; [reflexivity|]); cbn;
    (split; [reflexivity|]); (split; [reflexivity|]);
    (split; [reflexivity|]);
    unfold stored_as; cbn; repeat split;
    try (intros Hnz; apply Z.eqb_eq in Hz; contradiction).
Qed.

Lemma failed_presence_update_is_ignored_witness :
  exists resp w' row,
    SubmitTemperature sample_clock
      (fun k => (k =? executed resubmitted_world + 2)%nat)
      {| Proto.Readings := [wire "hwmon0_1" "h1" 61 "CPU" "Package" 530] |}
      resubmitted_world
    = (Ok resp, w')
    /\ Proto.Success resp = true
    /\ clients (store w') = clients (store resubmitted_world)
    /\ temperature_readings (store w')
       = temperature_readings (store resubmitted_world) ++ [row]
    /\ stored_as (wire "hwmon0_1" "h1" 61 "CPU" "Package" 530) row.
Proof.
  assert (Hfound : exists found,
             find (fun c => (cClientID c =? "h1")%string)
               (clients (store resubmitted_world)) = Some found
             /\ cID found <> 0%nat).
  { vm_compute. eexists. split; [reflexivity | discriminate]. }
  destruct Hfound as [found [Hfind Hid]].
  apply (@failed_presence_update_is_ignored sample_clock
           (fun k => (k =? executed resubmitted_world + 2)%nat)
           (wire "hwmon0_1" "h1" 61 "CPU" "Package" 530)
           resubmitted_world found Hfind Hid).
  - apply Nat.eqb_refl.
  - intros k Hk. now apply Nat.eqb_neq.
Defined.

(** ** Statistics with no sensor named *)

Lemma map_set_keys (m : list (string * Proto.TemperatureStats)) (k : string)
    (v : Proto.TemperatureStats) :
  ~ In k (map fst m) -> map fst (map_set m k v) = map fst m ++ [k].
Proof.
  induction m as [|[k' v'] t IH]; intros Hk; simpl; [reflexivity|].
  destruct (k' =? k)%string eqn:E.
  - apply String.eqb_eq in E. subst k'. exfalso. apply Hk. now left.
  - simpl. f_equal. apply IH. intros H. apply Hk. now right.
Qed.

Lemma accumulated_stats_keys (req : Proto.GetTemperatureStatsRequest)
    (all : list TemperatureReading) (sensorIds : list string) :
  forall conds acc,
    NoDup (map fst acc ++ sensorIds) ->
    map fst (accumulated_stats req all conds sensorIds acc)
    = map fst acc ++ sensorIds.
Proof.
  induction sensorIds as [|id rest IH]; intros conds acc Hnd; simpl.
  - now rewrite app_nil_r.
  - assert (Hid : ~ In id (map fst acc)).
    { apply NoDup_remove_2 in Hnd. intros H. apply Hnd.
      apply in_or_app. now left. }
    rewrite IH; rewrite map_set_keys by exact Hid.
    + now rewrite <- app_assoc.
    + now rewrite <- app_assoc.
Qed.


